(** * Shallow embedding of the abzu interpreter (abzu-interpreter crate)

    Modules embedded: [value.rs] (numeric model), [lexer.rs] and
    [token.rs] (tokenizer), [interpreter.rs] (evaluator).

    Machine data is modelled as the Rust code has it:
    - [i64] is [Z] restricted to [[-2^63, 2^63)]; Rust's arithmetic on it
      either panics or wraps, depending on the build profile's
      [overflow-checks] setting, which is a parameter of the evaluator;
    - [f64] is IEEE-754 binary64, Stdlib's [spec_float] with precision 53
      and maximal exponent 1024, with round-to-nearest-even arithmetic;
    - a Rust [char] is its Unicode scalar value ([N]); a [String] is a
      [list char];
    - a Rust function returning [Result<A, E>] returns [outcome A E],
      which has a third case for a panic. *)

From Stdlib Require Import ZArith List Bool Ascii String Lia.
From Stdlib Require Import Floats.SpecFloat.
From stdpp Require Import base gmap.

Import ListNotations.
Open Scope Z_scope.

(** ** Results with panics *)

Inductive outcome (A E : Type) : Type :=
| Ok (a : A)
| Err (e : E)
| Panic.
Arguments Ok {A E} a.
Arguments Err {A E} e.
Arguments Panic {A E}.

(** Rust's [?] operator: propagate the error (and any panic). *)
Definition obind {A B E : Type} (m : outcome A E) (k : A -> outcome B E) : outcome B E :=
  match m with
  | Ok a => k a
  | Err e => Err e
  | Panic => Panic
  end.

Definition map_err {A E E' : Type} (f : E -> E') (m : outcome A E) : outcome A E' :=
  match m with
  | Ok a => Ok a
  | Err e => Err (f e)
  | Panic => Panic
  end.

Notation "'let?' x ':=' m 'in' k" := (obind m (fun x => k))
  (at level 200, x name, m at level 100, k at level 200).

(** ** Characters and strings *)

Definition char := N.

(** A Rust string literal written with ASCII characters. *)
Definition chars (s : string) : list char :=
  map N_of_ascii (list_ascii_of_string s).

Definition ch_nul : char := 0%N.
Definition ch_tab : char := 9%N.
Definition ch_lf : char := 10%N.
Definition ch_cr : char := 13%N.
Definition ch_space : char := 32%N.
Definition ch_plus : char := 43%N.
Definition ch_comma : char := 44%N.
Definition ch_minus : char := 45%N.
Definition ch_dot : char := 46%N.
Definition ch_slash : char := 47%N.
Definition ch_semicolon : char := 59%N.
Definition ch_eq : char := 61%N.
Definition ch_lparen : char := 40%N.
Definition ch_rparen : char := 41%N.
Definition ch_star : char := 42%N.
Definition ch_underscore : char := 95%N.

(** [char::is_ascii_digit] *)
Definition is_ascii_digit (c : char) : bool := (48 <=? c)%N && (c <=? 57)%N.

(** [str::contains(c)] *)
Definition contains (s : list char) (c : char) : bool :=
  existsb (N.eqb c) s.

(** [str::split(c)], collected into a vector: the pieces between the
    occurrences of [c], empty pieces included. *)
Fixpoint split (c : char) (s : list char) : list (list char) :=
  match s with
  | [] => [[]]
  | x :: s' =>
      if N.eqb x c then [] :: split c s'
      else match split c s' with
           | p :: ps => (x :: p) :: ps
           | [] => [[x]]
           end
  end.

(** Decimal rendering of an integer, as [format!("{}", i)]. *)
Fixpoint pos_digits (fuel : nat) (p : positive) (acc : list char) : list char :=
  match fuel with
  | O => acc
  | S fuel' =>
      let '(q, r) := Z.div_eucl (Zpos p) 10 in
      let acc' := (48 + Z.to_N r)%N :: acc in
      match q with
      | Zpos q' => pos_digits fuel' q' acc'
      | _ => acc'
      end
  end.

Definition z_to_dec (z : Z) : list char :=
  match z with
  | Z0 => [48%N]
  | Zpos p => pos_digits (Pos.size_nat p) p []
  | Zneg p => ch_minus :: pos_digits (Pos.size_nat p) p []
  end.

(** ** [i64] *)

Definition i64_min : Z := - 2 ^ 63.
Definition i64_max : Z := 2 ^ 63 - 1.

Definition in_i64 (z : Z) : bool := (i64_min <=? z) && (z <=? i64_max).

(** Two's complement wrap-around of a mathematical result. *)
Definition wrap64 (z : Z) : Z := (z + 2 ^ 63) mod 2 ^ 64 - 2 ^ 63.

(** The result of [+], [-], [*] or unary [-] on [i64]: a panic on overflow
    when [overflow_checks] is on, a wrapped result otherwise. *)
Definition i64_arith {E : Type} (overflow_checks : bool) (z : Z) : outcome Z E :=
  if in_i64 z then Ok z
  else if overflow_checks then Panic else Ok (wrap64 z).

(** [a / b] and [a % b] on [i64]: both panic on a zero divisor and on
    [i64::MIN] by [-1], whatever the build profile. *)
Definition i64_div {E : Type} (a b : Z) : outcome Z E :=
  if (b =? 0) || ((a =? i64_min) && (b =? -1)) then Panic else Ok (Z.quot a b).

Definition i64_rem {E : Type} (a b : Z) : outcome Z E :=
  if (b =? 0) || ((a =? i64_min) && (b =? -1)) then Panic else Ok (Z.rem a b).

(** ** [f64] *)

Definition f64 := spec_float.

Definition f64_add := SFadd 53 1024.
Definition f64_sub := SFsub 53 1024.
Definition f64_mul := SFmul 53 1024.
Definition f64_div := SFdiv 53 1024.
Definition f64_neg := SFopp.
(** [==] on [f64]: IEEE equality ([-0.0 == 0.0], [NaN != NaN]). *)
Definition f64_eq := SFeqb.

(** [i as f64] for an [i64] (or any integer): round to nearest, ties to even. *)
Definition f64_of_Z (z : Z) : f64 := binary_normalize 53 1024 z 0 false.

Definition f64_zero : f64 := S754_zero false.
Definition f64_sixty : f64 := f64_of_Z 60.

(** Integer part of [m * 2^e] rounded toward zero. *)
Definition trunc_mag (m : positive) (e : Z) : Z :=
  if 0 <=? e then Z.shiftl (Zpos m) e else Z.shiftr (Zpos m) (- e).

(** [f64::floor]. *)
Definition f64_floor (x : f64) : f64 :=
  match x with
  | S754_finite s m e =>
      if 0 <=? e then x
      else
        let q := trunc_mag m e in
        let exact := Z.shiftl q (- e) =? Zpos m in
        if s then binary_normalize 53 1024 (- (if exact then q else q + 1)) 0 s
        else binary_normalize 53 1024 q 0 s
  | _ => x
  end.

(** [f64::round]: to the nearest integer, halfway cases away from zero. *)
Definition f64_round (x : f64) : f64 :=
  match x with
  | S754_finite s m e =>
      if 0 <=? e then x
      else
        let q := trunc_mag m e in
        let r := Zpos m - Z.shiftl q (- e) in
        let q' := if Z.shiftl 1 (- e) <=? 2 * r then q + 1 else q in
        binary_normalize 53 1024 (cond_Zopp s q') 0 s
  | _ => x
  end.

Definition clamp_i64 (z : Z) : Z := Z.max i64_min (Z.min i64_max z).

(** [x as i64]: truncation toward zero, saturating at the bounds of [i64],
    [NaN] giving [0]. *)
Definition f64_as_i64 (x : f64) : Z :=
  match x with
  | S754_nan | S754_zero _ => 0
  | S754_infinity s => if s then i64_min else i64_max
  | S754_finite s m e => clamp_i64 (cond_Zopp s (trunc_mag m e))
  end.

(** ** [value.rs]: numeral errors and values *)

Inductive NumberError :=
| InvalidFormat (msg : list char)
| EmptyNumber
| MultipleDecimals
| InvalidSexagesimalDigit (c : char).

Record SexagesimalNum := {
  integer_part : Z;
  fractional_part : Z; (* stored as sixtieths (0-59) *)
  has_fraction : bool
}.

Inductive Value :=
| Integer (i : Z)
| Float (f : f64)
| Sexagesimal (s : SexagesimalNum).

Definition fraction_range_msg (fractional : Z) : list char :=
  chars "Fractional part must be between 0 and 59, got " ++ z_to_dec fractional.

(** [SexagesimalNum::new] *)
Definition SexagesimalNum_new (integer fractional : Z) : outcome SexagesimalNum NumberError :=
  if (fractional <? 0) || (60 <=? fractional) then
    Err (InvalidFormat (fraction_range_msg fractional))
  else
    Ok {| integer_part := integer;
          fractional_part := fractional;
          has_fraction := negb (fractional =? 0) |}.

(** [SexagesimalNum::to_f64] *)
Definition to_f64 (self : SexagesimalNum) : f64 :=
  f64_add (f64_of_Z (integer_part self)) (f64_div (f64_of_Z (fractional_part self)) f64_sixty).

(** [SexagesimalNum::from_f64] *)
Definition from_f64 (value : f64) : SexagesimalNum :=
  let integer_part := f64_as_i64 (f64_floor value) in
  let fractional := f64_as_i64 (f64_round (f64_mul (f64_sub value (f64_of_Z integer_part)) f64_sixty)) in
  {| integer_part := integer_part;
     fractional_part := fractional;
     has_fraction := negb (fractional =? 0) |}.

(** ** [value.rs]: display *)

(** [format!("{:02}", i)]: zero-padded to two characters after the sign;
    only a single nonnegative digit is short enough to be padded. *)
Definition fmt_02 (z : Z) : list char :=
  let s := z_to_dec z in
  if (length s <? 2)%nat then 48%N :: s else s.

(** [impl Display for SexagesimalNum] *)
Definition display_sexagesimal (self : SexagesimalNum) : list char :=
  if has_fraction self
  then z_to_dec (integer_part self) ++ ch_semicolon :: fmt_02 (fractional_part self)
  else z_to_dec (integer_part self).

(** [impl Display for Value], its Integer and Sexagesimal arms; the Float
    arm (Rust's shortest round-trip rendering of an [f64]) is not embedded
    and gives [None]. *)
Definition display_value (v : Value) : option (list char) :=
  match v with
  | Integer i => Some (z_to_dec i)
  | Float _ => None
  | Sexagesimal sex => Some (display_sexagesimal sex)
  end.

(** ** Rust's [str::parse] for the two number types *)

Definition digit_value (c : char) : Z := Z.of_N c - 48.

(** The value of a run of ASCII digits, or [None] at any other character. *)
Fixpoint digits_value (acc : Z) (l : list char) : option Z :=
  match l with
  | [] => Some acc
  | c :: l' => if is_ascii_digit c then digits_value (acc * 10 + digit_value c) l' else None
  end.

(** [s.parse::<i64>()] ([i64::from_str_radix(s, 10)]): an optional sign
    followed by at least one digit, the value within [i64]. *)
Definition parse_i64 (s : list char) : option Z :=
  let signed :=
    match s with
    | [] => None
    | [c] => if N.eqb c ch_plus || N.eqb c ch_minus then None else Some (true, s)
    | c :: rest =>
        if N.eqb c ch_plus then Some (true, rest)
        else if N.eqb c ch_minus then Some (false, rest)
        else Some (true, s)
    end in
  match signed with
  | None => None
  | Some (positive, digits) =>
      match digits_value 0 digits with
      | None => None
      | Some v =>
          let z := if positive then v else - v in
          if in_i64 z then Some z else None
      end
  end.

Definition ascii_lower (c : char) : char :=
  if (65 <=? c)%N && (c <=? 90)%N then (c + 32)%N else c.

Definition eq_ignore_ascii_case (a b : list char) : bool :=
  (length a =? length b)%nat && forallb (fun p => N.eqb (ascii_lower (fst p)) (ascii_lower (snd p))) (combine a b).

(** Longest prefix of ASCII digits. *)
Fixpoint take_digits (l : list char) : list char * list char :=
  match l with
  | c :: l' =>
      if is_ascii_digit c then let '(d, r) := take_digits l' in (c :: d, r) else ([], l)
  | [] => ([], [])
  end.

(** Correctly rounded binary64 value of [(-1)^neg * m * 10^x]. *)
Definition decimal_to_f64 (neg : bool) (m x : Z) : f64 :=
  if m =? 0 then S754_zero neg
  else
    let d := Z.of_nat (length (z_to_dec m)) in
    if 310 <=? d + x then S754_infinity neg
    else if d + x <=? -324 then S754_zero neg
    else if 0 <=? x then binary_normalize 53 1024 (cond_Zopp neg (m * 10 ^ x)) 0 neg
    else
      let den := 10 ^ (- x) in
      let k := 4 * (- x) + 60 in
      let '(q, r) := Z.div_eucl (Z.shiftl m k) den in
      binary_round_aux 53 1024 neg q (- k) (new_location den r).

(** [s.parse::<f64>()]: [Sign? ('inf' | 'infinity' | 'nan' | Number)] with
    [Number ::= (Digit+ | Digit+ '.' Digit* | Digit* '.' Digit+) Exp?] and
    [Exp ::= ('e' | 'E') Sign? Digit+], rounded to nearest. *)
Definition parse_f64 (s : list char) : option f64 :=
  let '(neg, body) :=
    match s with
    | c :: rest =>
        if N.eqb c ch_plus then (false, rest)
        else if N.eqb c ch_minus then (true, rest)
        else (false, s)
    | [] => (false, s)
    end in
  if eq_ignore_ascii_case body (chars "inf") || eq_ignore_ascii_case body (chars "infinity")
  then Some (S754_infinity neg)
  else if eq_ignore_ascii_case body (chars "nan") then Some S754_nan
  else
    let '(int_digits, r1) := take_digits body in
    let '(frac_digits, r2) :=
      match r1 with
      | c :: r => if N.eqb c ch_dot then take_digits r else ([], r1)
      | [] => ([], [])
      end in
    if (length int_digits + length frac_digits =? 0)%nat then None
    else
      let exponent :=
        match r2 with
        | [] => Some 0
        | c :: r =>
            if N.eqb c 101%N || N.eqb c 69%N then
              let '(eneg, edigits) :=
                match r with
                | c' :: r' =>
                    if N.eqb c' ch_plus then (false, r')
                    else if N.eqb c' ch_minus then (true, r')
                    else (false, r)
                | [] => (false, r)
                end in
              match edigits with
              | [] => None
              | _ => option_map (fun v => if eneg then - v else v) (digits_value 0 edigits)
              end
            else None
        end in
      match exponent, digits_value 0 (int_digits ++ frac_digits) with
      | Some e, Some m => Some (decimal_to_f64 neg m (e - Z.of_nat (length frac_digits)))
      | _, _ => None
      end.

(** ** [value.rs]: numeral parsing *)

Definition count (c : char) (s : list char) : nat :=
  length (filter (N.eqb c) s).

(** [parse_base10] *)
Definition parse_base10 (s : list char) : outcome Value NumberError :=
  let decimal_count := count ch_dot s in
  if (1 <? decimal_count)%nat then Err MultipleDecimals
  else if (decimal_count =? 1)%nat then
    match parse_f64 s with
    | Some f => Ok (Float f)
    | None => Err (InvalidFormat s)
    end
  else
    match parse_i64 s with
    | Some i => Ok (Integer i)
    | None => Err (InvalidFormat s)
    end.

(** [.parse::<i64>().map_err(|_| NumberError::InvalidFormat(part.to_string()))] *)
Definition parse_part (part : list char) : outcome Z NumberError :=
  match parse_i64 part with
  | Some i => Ok i
  | None => Err (InvalidFormat part)
  end.

(** [parse_sexagesimal] *)
Definition parse_sexagesimal (s : list char) : outcome Value NumberError :=
  match split ch_semicolon s with
  | [p0; p1] =>
      let? integer_part := parse_part p0 in
      let? fractional_part := parse_part p1 in
      if (fractional_part <? 0) || (60 <=? fractional_part) then
        Err (InvalidFormat (fraction_range_msg fractional_part))
      else
        let? sex := SexagesimalNum_new integer_part fractional_part in
        Ok (Sexagesimal sex)
  | _ =>
      Err (InvalidFormat
             (chars "Sexagesimal numbers must have exactly one ';' separator, got: " ++ s))
  end.

(** [parse_sexagesimal_comma] *)
Definition parse_sexagesimal_comma (s : list char) : outcome Value NumberError :=
  match split ch_comma s with
  | [p0] => parse_base10 p0
  | [p0; p1] =>
      let? integer_part := parse_part p0 in
      let? fractional_part := parse_part p1 in
      if (fractional_part <? 0) || (60 <=? fractional_part) then
        Err (InvalidFormat (fraction_range_msg fractional_part))
      else
        let value := f64_add (f64_of_Z integer_part) (f64_div (f64_of_Z fractional_part) f64_sixty) in
        Ok (Float value)
  | _ => Err (InvalidFormat (chars "Multi-position base-60 numbers not yet supported"))
  end.

(** [parse_number] *)
Definition parse_number (s : list char) : outcome Value NumberError :=
  match s with
  | [] => Err EmptyNumber
  | _ =>
      if contains s ch_semicolon then parse_sexagesimal s
      else if contains s ch_comma then parse_sexagesimal_comma s
      else parse_base10 s
  end.

(** ** [token.rs] *)

Module Token.
Inductive Token :=
| Identifier (name : list char)
| Number (text : list char)  (* Store as string for now, will parse later *)
| Plus
| Minus
| Asterisk
| Slash
| Assign
| LParen
| RParen
| Newline
| EOF.
End Token.
Import Token (Token).

(** ** [lexer.rs] *)

Inductive LexerError :=
| UnexpectedCharacter (c : char) (pos : nat).

(** [char::is_whitespace]: the Unicode White_Space characters. *)
Definition is_whitespace (c : char) : bool :=
  ((9 <=? c) && (c <=? 13))%N || N.eqb c 32 || N.eqb c 133 || N.eqb c 160
  || N.eqb c 5760 || ((8192 <=? c) && (c <=? 8202))%N || N.eqb c 8232 || N.eqb c 8233
  || N.eqb c 8239 || N.eqb c 8287 || N.eqb c 12288.

Record Lexer := {
  input : list char;
  position : nat;
  read_position : nat;
  ch : char
}.

(** [self.input[p..q]] *)
Definition slice (l : list char) (p q : nat) : list char :=
  firstn (q - p) (skipn p l).

Definition last_token (tokens : list Token) : option Token :=
  List.last (map Some tokens) None.

Section Lexer.

(** The Unicode Alphabetic property beyond ASCII, a table of the Rust
    standard library; [char::is_alphabetic] agrees with [a-zA-Z] on ASCII. *)
Variable alphabetic_non_ascii : char -> bool.

Definition is_alphabetic (c : char) : bool :=
  if (c <? 128)%N then ((65 <=? c) && (c <=? 90))%N || ((97 <=? c) && (c <=? 122))%N
  else alphabetic_non_ascii c.

(** [Lexer::read_char] *)
Definition read_char (self : Lexer) : Lexer :=
  {| input := input self;
     ch := if (length (input self) <=? read_position self)%nat then ch_nul
           else nth (read_position self) (input self) ch_nul;
     position := read_position self;
     read_position := S (read_position self) |}.

(** [Lexer::peek_char] *)
Definition peek_char (self : Lexer) : char :=
  if (length (input self) <=? read_position self)%nat then ch_nul
  else nth (read_position self) (input self) ch_nul.

(** [Lexer::new] *)
Definition Lexer_new (input : list char) : Lexer :=
  read_char {| input := input; position := 0; read_position := 0; ch := ch_nul |}.

(** The [while] loops below each run at most [length input + 1] times:
    every iteration calls [read_char], and [ch] is ['\0'] (ending every
    loop) once [read_position] has passed the end of the input. The
    [fuel] arguments are given that bound. *)

(** [Lexer::skip_whitespace] *)
Fixpoint skip_whitespace (fuel : nat) (self : Lexer) : Lexer :=
  match fuel with
  | O => self
  | S fuel' =>
      if is_whitespace (ch self) && negb (N.eqb (ch self) ch_lf)
      then skip_whitespace fuel' (read_char self)
      else self
  end.

Fixpoint read_identifier_loop (fuel : nat) (self : Lexer) : Lexer :=
  match fuel with
  | O => self
  | S fuel' =>
      if is_alphabetic (ch self) || N.eqb (ch self) ch_underscore || is_ascii_digit (ch self)
      then read_identifier_loop fuel' (read_char self)
      else self
  end.

(** [Lexer::read_identifier] *)
Definition read_identifier (self : Lexer) : list char * Lexer :=
  let start := position self in (* let position = self.position *)
  let self' := read_identifier_loop (S (length (input self))) self in
  (slice (input self') start (position self'), self').

(** [while self.ch.is_ascii_digit() || self.ch == '-']: the integer part. *)
Fixpoint read_integer_digits (fuel : nat) (self : Lexer) : Lexer :=
  match fuel with
  | O => self
  | S fuel' =>
      if is_ascii_digit (ch self) || N.eqb (ch self) ch_minus
      then read_integer_digits fuel' (read_char self)
      else self
  end.

(** [while self.ch.is_ascii_digit()]: the fractional part. *)
Fixpoint read_fraction_digits (fuel : nat) (self : Lexer) : Lexer :=
  match fuel with
  | O => self
  | S fuel' =>
      if is_ascii_digit (ch self) then read_fraction_digits fuel' (read_char self) else self
  end.

(** [Lexer::read_number] *)
Definition read_number (self : Lexer) : list char * Lexer :=
  let start := position self in (* let position = self.position *)
  let fuel := S (length (input self)) in
  let self1 := read_integer_digits fuel self in
  let self2 :=
    if N.eqb (ch self1) ch_dot || N.eqb (ch self1) ch_semicolon || N.eqb (ch self1) ch_comma
    then read_fraction_digits fuel (read_char self1)
    else self1 in
  (slice (input self2) start (position self2), self2).

(** One iteration of the loop of [Lexer::tokenize], for [self.ch != '\0']:
    the next lexer and the token list, or the error it returns. *)
Definition tokenize_step (self : Lexer) (tokens : list Token)
  : outcome (Lexer * list Token) LexerError :=
  let c := ch self in
  if N.eqb c ch_space || N.eqb c ch_tab || N.eqb c ch_cr then
    Ok (skip_whitespace (S (length (input self))) self, tokens)
  else if N.eqb c ch_lf then Ok (read_char self, tokens ++ [Token.Newline])
  else if N.eqb c ch_plus then Ok (read_char self, tokens ++ [Token.Plus])
  else if N.eqb c ch_minus then
    if is_ascii_digit (peek_char self) &&
       (match tokens with [] => true | _ => false end ||
        match last_token tokens with
        | Some (Token.Plus | Token.Minus | Token.Asterisk | Token.Slash | Token.Assign | Token.LParen) => true
        | _ => false
        end)
    then let '(num, self') := read_number self in Ok (self', tokens ++ [Token.Number num])
    else Ok (read_char self, tokens ++ [Token.Minus])
  else if N.eqb c ch_star then Ok (read_char self, tokens ++ [Token.Asterisk])
  else if N.eqb c ch_slash then Ok (read_char self, tokens ++ [Token.Slash])
  else if N.eqb c ch_eq then Ok (read_char self, tokens ++ [Token.Assign])
  else if N.eqb c ch_lparen then Ok (read_char self, tokens ++ [Token.LParen])
  else if N.eqb c ch_rparen then Ok (read_char self, tokens ++ [Token.RParen])
  else if N.eqb c ch_dot || N.eqb c ch_semicolon || N.eqb c ch_comma then
    Err (UnexpectedCharacter c (position self))
  else if is_alphabetic c || N.eqb c ch_underscore then
    let '(ident, self') := read_identifier self in Ok (self', tokens ++ [Token.Identifier ident])
  else if is_ascii_digit c then
    let '(num, self') := read_number self in Ok (self', tokens ++ [Token.Number num])
  else Err (UnexpectedCharacter c (position self)).

Fixpoint tokenize_loop (fuel : nat) (self : Lexer) (tokens : list Token)
  : outcome (list Token) LexerError :=
  match fuel with
  | O => Ok (tokens ++ [Token.EOF])
  | S fuel' =>
      if N.eqb (ch self) ch_nul then Ok (tokens ++ [Token.EOF])
      else
        let? st := tokenize_step self tokens in
        tokenize_loop fuel' (fst st) (snd st)
  end.

(** [Lexer::tokenize] *)
Definition tokenize (self : Lexer) : outcome (list Token) LexerError :=
  tokenize_loop (S (length (input self))) self [].

(** [Lexer::new(input).tokenize()] *)
Definition lex (input : list char) : outcome (list Token) LexerError :=
  tokenize (Lexer_new input).

End Lexer.

(** ** [ast.rs]

    The crate's [ast.rs] is not part of the sources at hand; the
    declarations below are the ones [interpreter.rs] relies on, with the
    shapes its pattern matches give them. *)

Module Ast.
Inductive Operator := Plus | Minus | Multiply | Divide.

(** Modelled from the spec: the operator of a unary operation ("operators
    limited to plus/minus"); [eval_unary_operation] matches exactly these
    two. *)
Inductive UnaryOperator := UPlus | UMinus.

Inductive Expression :=
| Number (text : list char)
| Identifier (name : list char)
| Binary (op : Operator) (left right : Expression)
| Unary (op : UnaryOperator) (e : Expression)
| Grouped (e : Expression).

Record Assignment := { variable : list char; value : Expression }.

Inductive Statement :=
| StmtExpression (e : Expression)
| StmtAssignment (a : Assignment).

Record Program := { statements : list Statement }.
End Ast.
Import Ast (Operator, UnaryOperator, Expression, Assignment, Statement, Program).

(** ** [interpreter.rs] *)

(** [TypeError] carries the numeral error whose [to_string()] is its
    message. *)
Inductive RuntimeError :=
| UndefinedVariable (name : list char)
| TypeError (e : NumberError)
| DivisionByZero
| InvalidOperator (msg : list char).

(** [Environment]: the [HashMap<String, Value>] of the variables. *)
Abbreviation Environment := (gmap (list char) Value).

Definition Environment_new : Environment := ∅.
Definition Environment_set (name : list char) (v : Value) (env : Environment) : Environment :=
  <[name := v]> env.
Definition Environment_get (env : Environment) (name : list char) : option Value :=
  env !! name.

Section Interpreter.

(** The [overflow-checks] setting of the build profile: on in the default
    (debug) profile, off in [--release]. *)
Variable overflow_checks : bool.

(** The arms of the four functions below follow the source. Each Rust
    [match] also ends in a wildcard arm returning [InvalidOperator]; the
    nine arms before it cover every pair of [Value] kinds, and Rocq refuses
    a redundant clause, so that arm has no counterpart here. *)

(** [Interpreter::add_values] *)
Definition add_values (left right : Value) : outcome Value RuntimeError :=
  match left, right with
  | Integer a, Integer b => let? c := i64_arith overflow_checks (a + b) in Ok (Integer c)
  | Integer a, Float b => Ok (Float (f64_add (f64_of_Z a) b))
  | Float a, Integer b => Ok (Float (f64_add a (f64_of_Z b)))
  | Float a, Float b => Ok (Float (f64_add a b))
  | Sexagesimal a, Sexagesimal b =>
      let result_float := f64_add (to_f64 a) (to_f64 b) in
      Ok (Sexagesimal (from_f64 result_float))
  | Sexagesimal a, Integer b =>
      let result_float := f64_add (to_f64 a) (f64_of_Z b) in
      Ok (Sexagesimal (from_f64 result_float))
  | Integer a, Sexagesimal b =>
      let result_float := f64_add (f64_of_Z a) (to_f64 b) in
      Ok (Sexagesimal (from_f64 result_float))
  | Sexagesimal a, Float b =>
      let result_float := f64_add (to_f64 a) b in
      Ok (Float result_float)
  | Float a, Sexagesimal b =>
      let result_float := f64_add a (to_f64 b) in
      Ok (Float result_float)
  end.

(** [Interpreter::subtract_values] *)
Definition subtract_values (left right : Value) : outcome Value RuntimeError :=
  match left, right with
  | Integer a, Integer b => let? c := i64_arith overflow_checks (a - b) in Ok (Integer c)
  | Integer a, Float b => Ok (Float (f64_sub (f64_of_Z a) b))
  | Float a, Integer b => Ok (Float (f64_sub a (f64_of_Z b)))
  | Float a, Float b => Ok (Float (f64_sub a b))
  | Sexagesimal a, Sexagesimal b =>
      let result_float := f64_sub (to_f64 a) (to_f64 b) in
      Ok (Sexagesimal (from_f64 result_float))
  | Sexagesimal a, Integer b =>
      let result_float := f64_sub (to_f64 a) (f64_of_Z b) in
      Ok (Sexagesimal (from_f64 result_float))
  | Integer a, Sexagesimal b =>
      let result_float := f64_sub (f64_of_Z a) (to_f64 b) in
      Ok (Sexagesimal (from_f64 result_float))
  | Sexagesimal a, Float b =>
      let result_float := f64_sub (to_f64 a) b in
      Ok (Float result_float)
  | Float a, Sexagesimal b =>
      let result_float := f64_sub a (to_f64 b) in
      Ok (Float result_float)
  end.

(** [Interpreter::multiply_values] *)
Definition multiply_values (left right : Value) : outcome Value RuntimeError :=
  match left, right with
  | Integer a, Integer b => let? c := i64_arith overflow_checks (a * b) in Ok (Integer c)
  | Integer a, Float b => Ok (Float (f64_mul (f64_of_Z a) b))
  | Float a, Integer b => Ok (Float (f64_mul a (f64_of_Z b)))
  | Float a, Float b => Ok (Float (f64_mul a b))
  | Sexagesimal a, Integer b =>
      let result_float := f64_mul (to_f64 a) (f64_of_Z b) in
      Ok (Sexagesimal (from_f64 result_float))
  | Integer a, Sexagesimal b =>
      let result_float := f64_mul (f64_of_Z a) (to_f64 b) in
      Ok (Sexagesimal (from_f64 result_float))
  | Sexagesimal a, Float b =>
      let result_float := f64_mul (to_f64 a) b in
      Ok (Float result_float)
  | Float a, Sexagesimal b =>
      let result_float := f64_mul a (to_f64 b) in
      Ok (Float result_float)
  | Sexagesimal a, Sexagesimal b =>
      let result_float := f64_mul (to_f64 a) (to_f64 b) in
      Ok (Float result_float) (* Multiplication of sexagesimals gives float *)
  end.

(** The division-by-zero guard of [Interpreter::divide_values]. *)
Definition is_zero_divisor (right : Value) : bool :=
  match right with
  | Integer 0 => true
  | Float n => f64_eq n f64_zero
  | Sexagesimal sex => f64_eq (to_f64 sex) f64_zero
  | _ => false
  end.

(** [Interpreter::divide_values] *)
Definition divide_values (left right : Value) : outcome Value RuntimeError :=
  if is_zero_divisor right then Err DivisionByZero
  else
    match left, right with
    | Integer a, Integer b =>
        let? r := i64_rem a b in
        if r =? 0 then let? q := i64_div a b in Ok (Integer q)
        else Ok (Float (f64_div (f64_of_Z a) (f64_of_Z b)))
    | Integer a, Float b => Ok (Float (f64_div (f64_of_Z a) b))
    | Float a, Integer b => Ok (Float (f64_div a (f64_of_Z b)))
    | Float a, Float b => Ok (Float (f64_div a b))
    | Sexagesimal a, Integer b =>
        let result_float := f64_div (to_f64 a) (f64_of_Z b) in
        Ok (Sexagesimal (from_f64 result_float))
    | Integer a, Sexagesimal b =>
        let result_float := f64_div (f64_of_Z a) (to_f64 b) in
        Ok (Sexagesimal (from_f64 result_float))
    | Sexagesimal a, Float b =>
        let result_float := f64_div (to_f64 a) b in
        Ok (Float result_float)
    | Float a, Sexagesimal b =>
        let result_float := f64_div a (to_f64 b) in
        Ok (Float result_float)
    | Sexagesimal a, Sexagesimal b =>
        let result_float := f64_div (to_f64 a) (to_f64 b) in
        Ok (Float result_float) (* Division of sexagesimals gives float *)
    end.

(** [Interpreter::negate_value] *)
Definition negate_value (value : Value) : outcome Value RuntimeError :=
  match value with
  | Integer n => let? m := i64_arith overflow_checks (- n) in Ok (Integer m)
  | Float n => Ok (Float (f64_neg n))
  | Sexagesimal sex =>
      let result_float := f64_neg (to_f64 sex) in
      Ok (Sexagesimal (from_f64 result_float))
  end.

(** [Interpreter::eval_binary_operation] *)
Definition eval_binary_operation (op : Operator) (left right : Value) : outcome Value RuntimeError :=
  match op with
  | Ast.Plus => add_values left right
  | Ast.Minus => subtract_values left right
  | Ast.Multiply => multiply_values left right
  | Ast.Divide => divide_values left right
  end.

(** [Interpreter::eval_unary_operation] *)
Definition eval_unary_operation (op : UnaryOperator) (value : Value) : outcome Value RuntimeError :=
  match op with
  | Ast.UPlus => Ok value (* +value *)
  | Ast.UMinus => negate_value value
  end.

(** [Interpreter::eval_expression]; it only reads the environment. *)
Fixpoint eval_expression (environment : Environment) (expr : Expression) : outcome Value RuntimeError :=
  match expr with
  | Ast.Number n_str => map_err TypeError (parse_number n_str)
  | Ast.Identifier id =>
      match Environment_get environment id with
      | Some v => Ok v
      | None => Err (UndefinedVariable id)
      end
  | Ast.Binary op lhs rhs =>
      let? left_val := eval_expression environment lhs in
      let? right_val := eval_expression environment rhs in
      eval_binary_operation op left_val right_val
  | Ast.Unary op e =>
      let? value := eval_expression environment e in
      eval_unary_operation op value
  | Ast.Grouped e => eval_expression environment e
  end.

(** [Interpreter::eval_statement]: the environment after the statement
    and its result. *)
Definition eval_statement (environment : Environment) (statement : Statement)
  : Environment * outcome Value RuntimeError :=
  match statement with
  | Ast.StmtExpression expr => (environment, eval_expression environment expr)
  | Ast.StmtAssignment assign =>
      match eval_expression environment (Ast.value assign) with
      | Ok value => (Environment_set (Ast.variable assign) value environment, Ok value)
      | Err e => (environment, Err e)
      | Panic => (environment, Panic)
      end
  end.

(** The [for] loop of [Interpreter::eval_program], with [result] its
    accumulator. *)
Fixpoint eval_statements (environment : Environment) (statements : list Statement)
  (result : option Value) : Environment * outcome (option Value) RuntimeError :=
  match statements with
  | [] => (environment, Ok result)
  | statement :: rest =>
      match eval_statement environment statement with
      | (environment', Ok v) => eval_statements environment' rest (Some v)
      | (environment', Err e) => (environment', Err e)
      | (environment', Panic) => (environment', Panic)
      end
  end.

(** [Interpreter::eval_program] *)
Definition eval_program (program : Program) (environment : Environment)
  : Environment * outcome (option Value) RuntimeError :=
  eval_statements environment (Ast.statements program) None.

End Interpreter.

(** ** Concrete inputs *)

(** [(-1)^neg * m * 10^x] as a Rust [f64] literal ([2.25] is [f64_lit 225 (-2)]). *)
Definition f64_lit (m x : Z) : f64 := decimal_to_f64 false m x.

Definition sexagesimal (i f : Z) : Value :=
  Sexagesimal {| integer_part := i; fractional_part := f; has_fraction := negb (f =? 0) |}.

(** A line [a op b] of two numerals, as the parser builds it. *)
Definition binary_line (a : string) (op : Operator) (b : string) : Expression :=
  Ast.Binary op (Ast.Number (chars a)) (Ast.Number (chars b)).

(** A variable name. *)
Definition var (s : string) : list char := chars s.

(** Result kinds. *)
Definition yields_sexagesimal (o : outcome Value RuntimeError) : Prop :=
  exists s, o = Ok (Sexagesimal s).
Definition yields_float (o : outcome Value RuntimeError) : Prop :=
  exists f, o = Ok (Float f).

(** ** Auxiliary definitions *)

(** A run of ASCII digits. *)
Definition all_digits (d : list char) : Prop := Forall (fun c => is_ascii_digit c = true) d.

(** What [parse_number] guarantees of a value it returns. *)
Definition parsed_value_ok (v : Value) : Prop :=
  match v with
  | Integer i => in_i64 i = true
  | Float _ => True
  | Sexagesimal x =>
      in_i64 (integer_part x) = true /\ 0 <= fractional_part x < 60
      /\ has_fraction x = negb (fractional_part x =? 0)
  end.

(** The character at index [j] as [read_char] reads it: ['\0'] past the end. *)
Definition char_at (l : list char) (j : nat) : char :=
  if (length l <=? j)%nat then ch_nul else nth j l ch_nul.

(** The lexer on [l] once [read_char] has moved it to index [j]. *)
Definition lexer_at (l : list char) (j : nat) : Lexer :=
  {| input := l; position := j; read_position := S j; ch := char_at l j |}.

(** The identifiers an expression reads. *)
Fixpoint identifiers (e : Expression) : list (list char) :=
  match e with
  | Ast.Number _ => []
  | Ast.Identifier id => [id]
  | Ast.Binary _ l r => identifiers l ++ identifiers r
  | Ast.Unary _ e' => identifiers e'
  | Ast.Grouped e' => identifiers e'
  end.

(** The variables the assignments of a statement list bind. *)
Definition assigned (stmts : list Statement) : list (list char) :=
  flat_map (fun s => match s with Ast.StmtAssignment a => [Ast.variable a] | _ => [] end) stmts.

(** * Properties *)

(** ** Auxiliary lemmas *)

Lemma f64_eq_zero_iff (n : f64) : f64_eq n f64_zero = true <-> exists sg, n = S754_zero sg.
Proof.
  split.
  - destruct n as [s|s| |s m e]; [eauto| | |]; destruct s || idtac; cbv; discriminate.
  - intros [sg ->]. destruct sg; reflexivity.
Qed.

Lemma is_zero_divisor_iff (r : Value) :
  is_zero_divisor r = true <->
  r = Integer 0 \/ (exists sg, r = Float (S754_zero sg))
  \/ (exists s sg, r = Sexagesimal s /\ to_f64 s = S754_zero sg).
Proof.
  destruct r as [i|f|s]; simpl.
  - destruct i; split; intros H; try discriminate; auto;
      destruct H as [H|[[sg H]|[s [sg [H _]]]]]; discriminate.
  - rewrite f64_eq_zero_iff. split.
    + intros [sg ->]. eauto.
    + intros [H|[[sg H]|[s [sg [H _]]]]]; try discriminate. injection H as ->. eauto.
  - rewrite f64_eq_zero_iff. split.
    + intros [sg H]. eauto 7.
    + intros [H|[[sg H]|[s' [sg [H H']]]]]; try discriminate. injection H as ->. eauto.
Qed.

(** [SexagesimalNum::new] keeps its fractional part in [[0, 60)] and fails
    outside it. *)
Lemma SexagesimalNum_new_spec (i f : Z) :
  (0 <= f < 60 -> SexagesimalNum_new i f =
     Ok {| integer_part := i; fractional_part := f; has_fraction := negb (f =? 0) |})
  /\ (~ (0 <= f < 60) -> exists msg, SexagesimalNum_new i f = Err (InvalidFormat msg)).
Proof.
  unfold SexagesimalNum_new. split.
  - intros Hf. replace ((f <? 0) || (60 <=? f)) with false by lia. reflexivity.
  - intros Hf. replace ((f <? 0) || (60 <=? f)) with true by lia. eauto.
Qed.

(** ** C1 *)

(** C1 (code_bug). The fractional part of a [SexagesimalNum] is meant to
    stay in [[0, 60)] (the field's comment, the check of
    [SexagesimalNum::new]); [from_f64] does not renormalise a fraction that
    rounds to 60: evaluating the line [3;59 / 4] (Sexagesimal by Integer,
    real value 0.9958..., times 60 is 59.75) gives the Sexagesimal with
    integer part 0 and fractional part 60, and [from_f64(0.995)] and
    [from_f64(-0.001)] have fractional part 60 as well. *)
Theorem from_f64_fraction_sixty (overflow_checks : bool) :
  eval_expression overflow_checks ∅ (binary_line "3;59" Ast.Divide "4")
    = Ok (Sexagesimal {| integer_part := 0; fractional_part := 60; has_fraction := true |})
  /\ fractional_part (from_f64 (f64_lit 995 (-3))) = 60
  /\ from_f64 (f64_neg (f64_lit 1 (-3)))
     = {| integer_part := -1; fractional_part := 60; has_fraction := true |}.
Proof. split; [|split]; vm_compute; reflexivity. Qed.

(** ** C2 *)

(** C2 (code_bug). [tokenize] emits a [Minus] token for a ['-'] that
    follows a number token, but [read_number] keeps reading while it sees
    a digit or a ['-'], so a ['-'] directly after the digits of a number is
    swallowed into that number: the line [2-5] gives the single token
    [Number("2-5")], not [Number("2"), Minus, Number("5")]. *)
Theorem lex_number_swallows_minus (alphabetic_non_ascii : char -> bool) :
  lex alphabetic_non_ascii (chars "2-5") = Ok [Token.Number (chars "2-5"); Token.EOF]
  /\ lex alphabetic_non_ascii (chars "2 -5")
     = Ok [Token.Number (chars "2"); Token.Minus; Token.Number (chars "5"); Token.EOF].
Proof. split; reflexivity. Qed.

(** ** C3 *)

(** C3 (counterexample). Two Sexagesimal operands under [/] do not always
    give a Float: with the divisor [0;0] the result is [DivisionByZero]. *)
Lemma sexagesimal_division_not_always_float :
  ~ yields_float (divide_values (sexagesimal 1 0) (sexagesimal 0 0)).
Proof. intros [f H]. vm_compute in H. discriminate. Qed.

(** C3 (amended). For every two Sexagesimal operands, each operation
    combines their real-number-equivalents ([to_f64]): [+] and [-]
    reconstruct a Sexagesimal from the sum or difference with [from_f64];
    [*] gives the Float product; [/] gives the Float quotient when the
    divisor's real-number-equivalent is nonzero and [DivisionByZero] when
    it is zero. [1;30 * 1;30] is the Float [2.25]. *)
Theorem sexagesimal_pair_result_kinds (overflow_checks : bool) (a b : SexagesimalNum) :
  add_values overflow_checks (Sexagesimal a) (Sexagesimal b)
    = Ok (Sexagesimal (from_f64 (f64_add (to_f64 a) (to_f64 b))))
  /\ subtract_values overflow_checks (Sexagesimal a) (Sexagesimal b)
    = Ok (Sexagesimal (from_f64 (f64_sub (to_f64 a) (to_f64 b))))
  /\ multiply_values overflow_checks (Sexagesimal a) (Sexagesimal b)
    = Ok (Float (f64_mul (to_f64 a) (to_f64 b)))
  /\ divide_values (Sexagesimal a) (Sexagesimal b)
    = (if f64_eq (to_f64 b) f64_zero then Err DivisionByZero
       else Ok (Float (f64_div (to_f64 a) (to_f64 b))))
  /\ multiply_values overflow_checks (sexagesimal 1 30) (sexagesimal 1 30) = Ok (Float (f64_lit 225 (-2))).
Proof.
  split; [|split; [|split; [|split]]]; [reflexivity..|vm_compute; reflexivity].
Qed.

(** ** C4 *)

(** C4 (counterexample). A Sexagesimal divided by the Integer [0] is not
    Sexagesimal: it fails with [DivisionByZero]. *)
Lemma sexagesimal_by_integer_zero_not_sexagesimal :
  ~ yields_sexagesimal (divide_values (sexagesimal 1 30) (Integer 0)).
Proof. intros [s H]. vm_compute in H. discriminate. Qed.

(** C4 (amended). For a Sexagesimal [a] and an Integer [b], in either
    order, [+], [-] and [*] combine the real-number-equivalents ([to_f64 a]
    and [b as f64]) and reconstruct a Sexagesimal from the result with
    [from_f64]; [/] does the same unless the divisor is zero (the Integer
    [0], or a Sexagesimal whose real-number-equivalent is zero), where it
    fails with [DivisionByZero]; and a division whose result is
    Sexagesimal always has one Sexagesimal and one Integer operand. *)
Theorem sexagesimal_integer_result_kinds (overflow_checks : bool) (a : SexagesimalNum) (b : Z) :
  add_values overflow_checks (Sexagesimal a) (Integer b)
    = Ok (Sexagesimal (from_f64 (f64_add (to_f64 a) (f64_of_Z b))))
  /\ add_values overflow_checks (Integer b) (Sexagesimal a)
    = Ok (Sexagesimal (from_f64 (f64_add (f64_of_Z b) (to_f64 a))))
  /\ subtract_values overflow_checks (Sexagesimal a) (Integer b)
    = Ok (Sexagesimal (from_f64 (f64_sub (to_f64 a) (f64_of_Z b))))
  /\ subtract_values overflow_checks (Integer b) (Sexagesimal a)
    = Ok (Sexagesimal (from_f64 (f64_sub (f64_of_Z b) (to_f64 a))))
  /\ multiply_values overflow_checks (Sexagesimal a) (Integer b)
    = Ok (Sexagesimal (from_f64 (f64_mul (to_f64 a) (f64_of_Z b))))
  /\ multiply_values overflow_checks (Integer b) (Sexagesimal a)
    = Ok (Sexagesimal (from_f64 (f64_mul (f64_of_Z b) (to_f64 a))))
  /\ divide_values (Sexagesimal a) (Integer b)
    = (if b =? 0 then Err DivisionByZero
       else Ok (Sexagesimal (from_f64 (f64_div (to_f64 a) (f64_of_Z b)))))
  /\ divide_values (Integer b) (Sexagesimal a)
    = (if f64_eq (to_f64 a) f64_zero then Err DivisionByZero
       else Ok (Sexagesimal (from_f64 (f64_div (f64_of_Z b) (to_f64 a)))))
  /\ (forall l r s, divide_values l r = Ok (Sexagesimal s) ->
      (exists a' b', l = Sexagesimal a' /\ r = Integer b')
      \/ (exists a' b', l = Integer b' /\ r = Sexagesimal a')).
Proof.
  repeat split; try reflexivity;
    try (unfold divide_values, is_zero_divisor; destruct b; reflexivity).
  intros l r s H. unfold divide_values in H.
  destruct (is_zero_divisor r); [discriminate|].
  destruct l as [x|x|x], r as [y|y|y]; try discriminate; eauto.
  destruct (i64_rem x y) as [q| |]; simpl in H; try discriminate.
  destruct (q =? 0); simpl in H; try discriminate.
  destruct (i64_div x y); simpl in H; discriminate.
Qed.

Lemma sexagesimal_integer_result_kinds_witness :
  (exists a' b', sexagesimal 3 59 = Sexagesimal a' /\ Integer 4 = Integer b')
  \/ (exists a' b', sexagesimal 3 59 = Integer b' /\ Integer 4 = Sexagesimal a').
Proof.
  destruct (sexagesimal_integer_result_kinds true
              {| integer_part := 3; fractional_part := 59; has_fraction := true |} 4)
    as (_ & _ & _ & _ & _ & _ & _ & _ & H).
  apply (H (sexagesimal 3 59) (Integer 4)
           {| integer_part := 0; fractional_part := 60; has_fraction := true |}).
  vm_compute. reflexivity.
Defined.

(** ** C5 *)

(** C5 (code_bug). Integer division computes [a % b] and [a / b] on [i64]
    without an overflow guard: [i64::MIN / -1] (the line
    [-9223372036854775808 / -1]) panics ("attempt to calculate the
    remainder with overflow") in every build profile instead of giving an
    Integer or a Float; likewise, with overflow checks on (the default
    profile), [i64::MAX + 1] panics instead of staying Integer. *)
Theorem integer_division_overflow_panics (overflow_checks : bool) :
  eval_expression overflow_checks ∅ (binary_line "-9223372036854775808" Ast.Divide "-1") = Panic
  /\ divide_values (Integer i64_min) (Integer (-1)) = Panic
  /\ add_values true (Integer i64_max) (Integer 1) = Panic.
Proof. split; [|split]; vm_compute; reflexivity. Qed.

(** X17. Away from the overflow, Integer division behaves as described: a
    nonzero divisor, other than [-1] under [i64::MIN], gives the Integer
    quotient when the division is exact and the Float quotient of the two
    converted operands otherwise. *)
Lemma integer_division_in_range (a b : Z) :
  b <> 0 -> ~ (a = i64_min /\ b = -1) ->
  divide_values (Integer a) (Integer b)
  = if Z.rem a b =? 0 then Ok (Integer (Z.quot a b))
    else Ok (Float (f64_div (f64_of_Z a) (f64_of_Z b))).
Proof.
  intros Hb Hov.
  assert (Hg : (b =? 0) || ((a =? i64_min) && (b =? -1)) = false).
  { destruct (Z.eqb_spec b 0); [lia|].
    destruct (Z.eqb_spec a i64_min), (Z.eqb_spec b (-1)); simpl; auto.
    exfalso. apply Hov. auto. }
  assert (Hz : is_zero_divisor (Integer b) = false) by (destruct b; simpl; congruence).
  unfold divide_values. rewrite Hz. cbn [obind].
  unfold i64_rem. rewrite Hg. cbn [obind].
  destruct (Z.rem a b =? 0); [|reflexivity].
  unfold i64_div. rewrite Hg. reflexivity.
Qed.

(** ** C6 *)

(** C6. For every left operand, dividing by the Integer [0], by a Float
    zero ([0.0] or [-0.0]) or by a Sexagesimal whose real-number-equivalent
    is zero fails with [DivisionByZero], before any other rule applies. *)
Theorem divide_by_zero_fails (l r : Value) :
  r = Integer 0 \/ (exists sg, r = Float (S754_zero sg))
  \/ (exists s sg, r = Sexagesimal s /\ to_f64 s = S754_zero sg) ->
  divide_values l r = Err DivisionByZero.
Proof.
  intros Hr. apply is_zero_divisor_iff in Hr.
  unfold divide_values. rewrite Hr. reflexivity.
Qed.

Lemma divide_by_zero_fails_witness :
  divide_values (Float (f64_lit 1 0)) (Float f64_zero) = Err DivisionByZero.
Proof. apply divide_by_zero_fails. right; left. exists false. reflexivity. Defined.

(** ** C7 *)

Lemma contains_nonempty (s : list char) (c : char) : contains s c = true -> s <> [].
Proof. destruct s; [discriminate|congruence]. Qed.

Lemma parse_part_spec (p : list char) :
  (forall i, parse_i64 p = Some i -> parse_part p = Ok i)
  /\ (parse_i64 p = None -> parse_part p = Err (InvalidFormat p)).
Proof. unfold parse_part. split; intros; rewrite H; reflexivity. Qed.

(** C7. The empty numeral fails with [EmptyNumber]. A numeral containing
    [';'] is parsed as follows: when it splits on [';'] into exactly two
    segments that both parse as [i64], the second in [[0, 60)], the result
    is the Sexagesimal with those integer and fractional parts; every
    successful parse is of that form; and otherwise the parse fails with
    [InvalidFormat]. *)
Theorem parse_number_semicolon (s : list char) :
  parse_number [] = Err EmptyNumber
  /\ (contains s ch_semicolon = true ->
      (forall p0 p1 a b, split ch_semicolon s = [p0; p1] ->
         parse_i64 p0 = Some a -> parse_i64 p1 = Some b -> 0 <= b < 60 ->
         parse_number s = Ok (sexagesimal a b))
      /\ (forall v, parse_number s = Ok v ->
          exists p0 p1 a b, split ch_semicolon s = [p0; p1]
            /\ parse_i64 p0 = Some a /\ parse_i64 p1 = Some b /\ 0 <= b < 60
            /\ v = sexagesimal a b)
      /\ ((exists v, parse_number s = Ok v)
          \/ (exists msg, parse_number s = Err (InvalidFormat msg)))).
Proof.
  split; [reflexivity|]. intros Hc.
  assert (Hp : parse_number s = parse_sexagesimal s).
  { unfold parse_number. destruct s; [discriminate|]. rewrite Hc. reflexivity. }
  rewrite Hp. clear Hp Hc. unfold parse_sexagesimal.
  destruct (split ch_semicolon s) as [|p0 [|p1 [|p2 ps]]] eqn:Hs;
    [split; [discriminate|split; [intros v H; discriminate|eauto]]..| |
     split; [discriminate|split; [intros v H; discriminate|eauto]]].
  unfold parse_part.
  destruct (parse_i64 p0) as [a|] eqn:Ha; [|cbn; split; [intros; congruence|split; [discriminate|eauto]]].
  destruct (parse_i64 p1) as [b|] eqn:Hb; [|cbn; split; [intros; congruence|split; [discriminate|eauto]]].
  cbn [obind].
  destruct ((b <? 0) || (60 <=? b)) eqn:Hr.
  - split.
    { intros p0' p1' a' b' Hs' Ha' Hb' Hr'. injection Hs' as <- <-.
      assert (b' = b) by congruence. lia. }
    split; [discriminate|eauto].
  - assert (Hb' : 0 <= b < 60) by lia.
    rewrite (proj1 (SexagesimalNum_new_spec a b) Hb'). cbn [obind].
    split.
    { intros p0' p1' a' b' Hs' Ha' Hb2 _. injection Hs' as <- <-.
      assert (a' = a) by congruence. assert (b' = b) by congruence. subst. reflexivity. }
    split; [|eauto].
    intros v [= <-]. exists p0, p1, a, b. auto.
Qed.

Lemma parse_number_semicolon_witness :
  parse_number (chars "1;30") = Ok (sexagesimal 1 30).
Proof.
  apply (proj1 (proj2 (parse_number_semicolon (chars "1;30")) eq_refl)
           (chars "1") (chars "30")); [reflexivity..|lia].
Defined.

(** ** C8 *)

(** C8. A numeral that contains [','] and no [';'] and splits on [','] into
    two segments that parse as [i64], the second in [[0, 60)], gives the
    Float [integer as f64 + fractional as f64 / 60.0], not a Sexagesimal;
    with three or more segments it fails with [InvalidFormat]. *)
Theorem parse_number_comma (s : list char) :
  contains s ch_semicolon = false -> contains s ch_comma = true ->
  (forall p0 p1 a b, split ch_comma s = [p0; p1] ->
     parse_i64 p0 = Some a -> parse_i64 p1 = Some b -> 0 <= b < 60 ->
     parse_number s = Ok (Float (f64_add (f64_of_Z a) (f64_div (f64_of_Z b) f64_sixty))))
  /\ ((3 <= length (split ch_comma s))%nat ->
      exists msg, parse_number s = Err (InvalidFormat msg)).
Proof.
  intros Hsc Hc.
  assert (Hp : parse_number s = parse_sexagesimal_comma s).
  { unfold parse_number. destruct s; [discriminate|]. rewrite Hsc, Hc. reflexivity. }
  rewrite Hp. clear Hp. unfold parse_sexagesimal_comma. split.
  - intros p0 p1 a b Hs Ha Hb Hr. rewrite Hs.
    rewrite (proj1 (parse_part_spec p0) a Ha), (proj1 (parse_part_spec p1) b Hb). cbn [obind].
    replace ((b <? 0) || (60 <=? b)) with false by lia. reflexivity.
  - intros Hl. destruct (split ch_comma s) as [|p0 [|p1 [|p2 ps]]]; cbn in Hl; try lia. eauto.
Qed.

Lemma parse_number_comma_witness :
  parse_number (chars "1,30") = Ok (Float (f64_lit 15 (-1))).
Proof.
  rewrite (proj1 (parse_number_comma (chars "1,30") eq_refl eq_refl)
             (chars "1") (chars "30") 1 30 eq_refl eq_refl eq_refl ltac:(lia)).
  vm_compute. reflexivity.
Defined.

(** ** C9 *)

(** A failing statement commits nothing: an assignment binds only after
    its right-hand side evaluated. *)
Lemma eval_statement_err_env (overflow_checks : bool) (env env' : Environment)
  (s : Statement) (e : RuntimeError) :
  eval_statement overflow_checks env s = (env', Err e) -> env' = env.
Proof.
  destruct s as [expr|assign]; simpl; [congruence|].
  destruct (eval_expression overflow_checks env (Ast.value assign)); congruence.
Qed.

(** Running a list of statements is running its prefix, then the rest
    from where the prefix left off. *)
Lemma eval_statements_app (overflow_checks : bool) (pre rest : list Statement) :
  forall (env : Environment) (result : option Value),
  eval_statements overflow_checks env (pre ++ rest) result
  = match eval_statements overflow_checks env pre result with
    | (env', Ok r) => eval_statements overflow_checks env' rest r
    | other => other
    end.
Proof.
  induction pre as [|s pre IH]; intros env result; simpl; [reflexivity|].
  destruct (eval_statement overflow_checks env s) as [env' [v|e|]]; [apply IH|reflexivity..].
Qed.

(** C9. Statements run in order. When the statements before [s] succeed
    (leaving [env1]) and [s] fails with [e], the program fails with [e],
    whatever follows [s], and the environment is exactly [env1]: the
    bindings of the statements before [s], nothing rolled back and nothing
    after [s] run. When [s] succeeds with [v] as the last statement, the
    program returns [v]. *)
Theorem eval_program_sequential (overflow_checks : bool) (env env1 : Environment)
  (pre : list Statement) (s : Statement) (post : list Statement) (r : option Value) :
  eval_program overflow_checks {| Ast.statements := pre |} env = (env1, Ok r) ->
  (forall e env2, eval_statement overflow_checks env1 s = (env2, Err e) ->
     eval_program overflow_checks {| Ast.statements := pre ++ s :: post |} env = (env1, Err e))
  /\ (forall v env2, eval_statement overflow_checks env1 s = (env2, Ok v) ->
     eval_program overflow_checks {| Ast.statements := pre ++ [s] |} env = (env2, Ok (Some v))).
Proof.
  unfold eval_program; simpl. intros Hpre. split.
  - intros e env2 Hs.
    pose proof (eval_statement_err_env _ _ _ _ _ Hs) as ->.
    rewrite eval_statements_app, Hpre. simpl. rewrite Hs. reflexivity.
  - intros v env2 Hs.
    rewrite eval_statements_app, Hpre. simpl. rewrite Hs. reflexivity.
Qed.

Lemma eval_program_sequential_witness :
  eval_program true
    {| Ast.statements :=
         [Ast.StmtAssignment {| Ast.variable := var "x"; Ast.value := Ast.Number (chars "1") |};
          Ast.StmtAssignment {| Ast.variable := var "y"; Ast.value := Ast.Identifier (var "z") |};
          Ast.StmtAssignment {| Ast.variable := var "w"; Ast.value := Ast.Number (chars "2") |}] |}
    Environment_new
  = (Environment_set (var "x") (Integer 1) Environment_new, Err (UndefinedVariable (var "z"))).
Proof.
  apply (proj1 (eval_program_sequential true Environment_new (Environment_set (var "x") (Integer 1) Environment_new)
                  [Ast.StmtAssignment {| Ast.variable := var "x"; Ast.value := Ast.Number (chars "1") |}]
                  (Ast.StmtAssignment {| Ast.variable := var "y"; Ast.value := Ast.Identifier (var "z") |})
                  [Ast.StmtAssignment {| Ast.variable := var "w"; Ast.value := Ast.Number (chars "2") |}]
                  (Some (Integer 1)) ltac:(vm_compute; reflexivity))
           (UndefinedVariable (var "z")) (Environment_set (var "x") (Integer 1) Environment_new)).
  vm_compute. reflexivity.
Defined.

(** ** C10 *)

(** C10. The nine pairs of value kinds are all handled by each of the four
    binary operations: no binary operation returns [InvalidOperator], and
    the only error a binary operation returns is [DivisionByZero]. *)
Theorem binary_operation_errors (overflow_checks : bool) :
  (forall op l r msg, eval_binary_operation overflow_checks op l r <> Err (InvalidOperator msg))
  /\ (forall op l r e, eval_binary_operation overflow_checks op l r = Err e -> e = DivisionByZero).
Proof.
  assert (H : forall op l r e, eval_binary_operation overflow_checks op l r = Err e -> e = DivisionByZero).
  { intros op l r e Hop.
    destruct op; simpl in Hop;
      unfold add_values, subtract_values, multiply_values, divide_values in Hop;
      [| | |destruct (is_zero_divisor r); [congruence|]];
      destruct l, r; cbn [obind] in Hop; try discriminate;
      unfold i64_arith, i64_rem, i64_div in Hop;
      repeat match type of Hop with
      | context [if ?c then _ else _] => destruct c; cbn [obind] in Hop
      end; discriminate. }
  split; [|exact H].
  intros op l r msg Hop. apply H in Hop. discriminate.
Qed.

Lemma binary_operation_errors_witness :
  exists e, eval_binary_operation false Ast.Divide (Integer 1) (Integer 0) = Err e
            /\ e = DivisionByZero.
Proof.
  exists DivisionByZero. split; [reflexivity|].
  apply (proj2 (binary_operation_errors false) Ast.Divide (Integer 1) (Integer 0)).
  reflexivity.
Defined.

(** ** Further properties *)

(** *** Numerals: rendering and parsing ([value.rs]) *)

Lemma digits_value_app (a : Z) (l1 l2 : list char) :
  digits_value a (l1 ++ l2)
  = match digits_value a l1 with Some b => digits_value b l2 | None => None end.
Proof.
  revert a. induction l1 as [|c l1 IH]; intros a; simpl; [reflexivity|].
  destruct (is_ascii_digit c); [apply IH|reflexivity].
Qed.

Lemma digit_char (r : Z) : 0 <= r < 10 ->
  is_ascii_digit (48 + Z.to_N r)%N = true /\ digit_value (48 + Z.to_N r)%N = r.
Proof.
  intros Hr. unfold is_ascii_digit, digit_value. split.
  - apply andb_true_intro; split; apply N.leb_le; lia.
  - lia.
Qed.

Lemma pos_digits_spec (fuel : nat) : forall (p : positive) (acc : list char),
  (Pos.size_nat p <= fuel)%nat ->
  exists d, pos_digits fuel p acc = d ++ acc /\ d <> [] /\ all_digits d
    /\ forall a, digits_value a d = Some (a * 10 ^ Z.of_nat (length d) + Zpos p).
Proof.
  induction fuel as [|f IH]; intros p acc Hs.
  { destruct p; simpl in Hs; lia. }
  cbn [pos_digits]. pose proof (Z_div_mod (Zpos p) 10 ltac:(lia)) as Hdm.
  destruct (Z.div_eucl (Zpos p) 10) as [q r]. destruct Hdm as [Hpq Hr].
  destruct (digit_char r Hr) as [Hd Hv].
  destruct q as [|q'|q'].
  - exists [(48 + Z.to_N r)%N]. split; [reflexivity|]. split; [congruence|].
    split; [constructor; auto|].
    intros a. simpl. rewrite Hd, Hv. f_equal. lia.
  - assert (Hs' : (Pos.size_nat q' <= f)%nat).
    { assert (Hlt : (xO q' < p)%positive) by lia.
      pose proof (Pos.size_nat_monotone _ _ Hlt) as Hm. simpl in Hm. lia. }
    destruct (IH q' ((48 + Z.to_N r)%N :: acc) Hs') as (d & Heq & Hne & Hall & Hval).
    exists (d ++ [(48 + Z.to_N r)%N]). split; [rewrite Heq, <- app_assoc; reflexivity|].
    split; [destruct d; simpl; congruence|].
    split; [apply Forall_app; split; auto|].
    intros a. rewrite digits_value_app, Hval. simpl. rewrite Hd, Hv.
    rewrite length_app. simpl. f_equal.
    rewrite Nat2Z.inj_add, Z.pow_add_r by lia. simpl. lia.
  - pose proof (Pos2Z.neg_is_neg q'). lia.
Qed.

(** A nonnegative integer renders as a run of digits with that value. *)
Lemma z_to_dec_nonneg (z : Z) : 0 <= z ->
  z_to_dec z <> [] /\ all_digits (z_to_dec z)
  /\ forall a, digits_value a (z_to_dec z) = Some (a * 10 ^ Z.of_nat (length (z_to_dec z)) + z).
Proof.
  intros Hz. destruct z as [|p|p]; [|simpl|lia].
  - split; [discriminate|]. split; [repeat constructor|].
    intros a. simpl. f_equal; lia.
  - destruct (pos_digits_spec (Pos.size_nat p) p [] (le_n _)) as (d & Heq & Hne & Hall & Hval).
    rewrite app_nil_r in Heq. rewrite Heq. auto.
Qed.

Lemma parse_i64_digits (d : list char) : d <> [] -> all_digits d ->
  parse_i64 d = match digits_value 0 d with
                | Some v => if in_i64 v then Some v else None
                | None => None end
  /\ parse_i64 (ch_minus :: d) = match digits_value 0 d with
                | Some v => if in_i64 (- v) then Some (- v) else None
                | None => None end.
Proof.
  intros Hne Hall. destruct d as [|c [|c' d]]; [congruence| |];
    inversion Hall as [|? ? Hc]; subst; unfold is_ascii_digit in Hc;
    apply andb_true_iff in Hc as [Hc1 Hc2]; apply N.leb_le in Hc1, Hc2.
  - split; [|reflexivity]. unfold parse_i64.
    replace (N.eqb c ch_plus || N.eqb c ch_minus) with false; [reflexivity|].
    symmetry. apply orb_false_iff. split; apply N.eqb_neq; unfold ch_plus, ch_minus; lia.
  - split; [|reflexivity]. unfold parse_i64.
    replace (N.eqb c ch_plus) with false by (symmetry; apply N.eqb_neq; unfold ch_plus; lia).
    replace (N.eqb c ch_minus) with false by (symmetry; apply N.eqb_neq; unfold ch_minus; lia).
    reflexivity.
Qed.

Lemma z_to_dec_parse (z : Z) : in_i64 z = true -> parse_i64 (z_to_dec z) = Some z.
Proof.
  intros Hz. destruct z as [|p|p]; [reflexivity| |].
  - destruct (z_to_dec_nonneg (Zpos p) ltac:(lia)) as (Hne & Hall & Hval).
    rewrite (proj1 (parse_i64_digits _ Hne Hall)), Hval, Z.mul_0_l, Z.add_0_l, Hz. reflexivity.
  - destruct (z_to_dec_nonneg (Zpos p) ltac:(lia)) as (Hne & Hall & Hval).
    change (z_to_dec (Zneg p)) with (ch_minus :: z_to_dec (Zpos p)).
    rewrite (proj2 (parse_i64_digits _ Hne Hall)), Hval, Z.mul_0_l, Z.add_0_l. change (- Zpos p) with (Zneg p). rewrite Hz. reflexivity.
Qed.

Lemma contains_false (s : list char) (c : char) :
  Forall (fun x => x <> c) s -> contains s c = false.
Proof.
  induction 1 as [|x s Hx _ IH]; [reflexivity|].
  unfold contains in *. simpl. rewrite IH, orb_false_r. apply N.eqb_neq. congruence.
Qed.

(** The characters of a rendered integer: digits and a leading minus. *)
Lemma z_to_dec_chars (z : Z) :
  Forall (fun c => is_ascii_digit c = true \/ c = ch_minus) (z_to_dec z).
Proof.
  assert (H : forall p, Forall (fun c => is_ascii_digit c = true \/ c = ch_minus) (z_to_dec (Zpos p))).
  { intros p. destruct (z_to_dec_nonneg (Zpos p) ltac:(lia)) as (_ & Hall & _).
    eapply List.Forall_impl; [|exact Hall]. simpl. auto. }
  destruct z as [|p|p]; [repeat constructor; auto|apply H|].
  constructor; [auto|apply (H p)].
Qed.

Lemma z_to_dec_not (z : Z) (c : char) : is_ascii_digit c = false -> c <> ch_minus ->
  contains (z_to_dec z) c = false.
Proof.
  intros Hc Hm. apply contains_false.
  eapply List.Forall_impl; [|apply z_to_dec_chars].
  intros x [Hx|Hx]; congruence.
Qed.

Lemma z_to_dec_nonempty (z : Z) : z_to_dec z <> [].
Proof.
  destruct z as [|p|p]; [discriminate| |discriminate].
  apply (z_to_dec_nonneg (Zpos p)). lia.
Qed.

Lemma count_zero (c : char) (s : list char) : contains s c = false -> count c s = 0%nat.
Proof.
  unfold contains, count. induction s as [|x s IH]; simpl; [reflexivity|].
  intros H. apply orb_false_iff in H as [Hx H].
  rewrite filter_cons, decide_False; [apply IH, H|]. rewrite Hx. auto.
Qed.

(** A rendered [i64] parses back to itself. *)
Lemma parse_number_z_to_dec (z : Z) : in_i64 z = true ->
  parse_number (z_to_dec z) = Ok (Integer z).
Proof.
  intros Hz.
  assert (Hsc : contains (z_to_dec z) ch_semicolon = false)
    by (apply z_to_dec_not; [reflexivity|discriminate]).
  assert (Hc : contains (z_to_dec z) ch_comma = false)
    by (apply z_to_dec_not; [reflexivity|discriminate]).
  assert (Hd : count ch_dot (z_to_dec z) = 0%nat)
    by (apply count_zero, z_to_dec_not; [reflexivity|discriminate]).
  unfold parse_number.
  destruct (z_to_dec z) as [|c s] eqn:Hzd; [exfalso; exact (z_to_dec_nonempty z Hzd)|].
  rewrite Hsc, Hc. unfold parse_base10. rewrite Hd. simpl.
  rewrite <- Hzd, (z_to_dec_parse z Hz). reflexivity.
Qed.

Lemma split_single (c : char) (s : list char) : contains s c = false -> split c s = [s].
Proof.
  unfold contains. induction s as [|x s IH]; simpl; [reflexivity|].
  rewrite (N.eqb_sym c x). destruct (N.eqb x c); simpl; [discriminate|].
  intros H. rewrite (IH H). reflexivity.
Qed.

Lemma split_two (c : char) (a b : list char) :
  contains a c = false -> contains b c = false -> split c (a ++ c :: b) = [a; b].
Proof.
  unfold contains. induction a as [|x a IH]; intros Ha Hb; simpl.
  - rewrite N.eqb_refl. rewrite (split_single c b Hb). reflexivity.
  - simpl in Ha. rewrite (N.eqb_sym c x) in Ha.
    destruct (N.eqb x c); simpl in Ha; [discriminate|]. rewrite (IH Ha Hb). reflexivity.
Qed.

(** [{:02}] of a nonnegative [i64] parses back to itself. *)
Lemma fmt_02_spec (f : Z) : 0 <= f -> in_i64 f = true ->
  contains (fmt_02 f) ch_semicolon = false /\ parse_i64 (fmt_02 f) = Some f.
Proof.
  intros Hf Hr. destruct (z_to_dec_nonneg f Hf) as (Hne & Hall & Hval).
  assert (Hsc : forall d, all_digits d -> contains d ch_semicolon = false).
  { intros d Hd. apply contains_false. eapply List.Forall_impl; [|exact Hd].
    intros x Hx. unfold is_ascii_digit in Hx. apply andb_true_iff in Hx as [_ Hx].
    apply N.leb_le in Hx. unfold ch_semicolon. lia. }
  unfold fmt_02. destruct (length (z_to_dec f) <? 2)%nat.
  - assert (Hall' : all_digits (48%N :: z_to_dec f)) by (constructor; auto).
    split; [apply Hsc; exact Hall'|].
    rewrite (proj1 (parse_i64_digits (48%N :: z_to_dec f) ltac:(discriminate) Hall')).
    simpl. rewrite Hval, Z.mul_0_l, Z.add_0_l, Hr. reflexivity.
  - split; [apply Hsc; exact Hall|].
    rewrite (proj1 (parse_i64_digits _ Hne Hall)), Hval, Z.mul_0_l, Z.add_0_l, Hr. reflexivity.
Qed.

Lemma parse_i64_in_range (s : list char) (z : Z) : parse_i64 s = Some z -> in_i64 z = true.
Proof.
  unfold parse_i64. intros H.
  repeat (match type of H with context [match ?x with _ => _ end] => destruct x eqn:? end);
    try discriminate; injection H as <-; assumption.
Qed.

(** X1. Displaying an Integer ([{}] on [i64]) and parsing the text back
    with [parse_number] gives the same Integer, for every [i64]. *)
Theorem display_integer_parse (z : Z) : in_i64 z = true ->
  option_map parse_number (display_value (Integer z)) = Some (Ok (Integer z)).
Proof. intros Hz. simpl. rewrite (parse_number_z_to_dec z Hz). reflexivity. Qed.

(** X2. A Sexagesimal built by [SexagesimalNum::new] from an [i64] integer
    part displays as text that [parse_number] reads back as the same
    Sexagesimal when the fractional part is nonzero ([i;ff], the fraction
    zero-padded); with a zero fractional part the text is the bare
    integer, which parses back as an Integer, not a Sexagesimal. *)
Theorem display_sexagesimal_parse (i f : Z) (x : SexagesimalNum) :
  in_i64 i = true -> SexagesimalNum_new i f = Ok x ->
  option_map parse_number (display_value (Sexagesimal x))
  = Some (if f =? 0 then Ok (Integer i) else Ok (Sexagesimal x)).
Proof.
  intros Hi Hx.
  assert (Hf : 0 <= f < 60).
  { unfold SexagesimalNum_new in Hx. destruct ((f <? 0) || (60 <=? f)) eqn:Hr; [discriminate|]. lia. }
  rewrite (proj1 (SexagesimalNum_new_spec i f) Hf) in Hx. injection Hx as <-.
  simpl. unfold display_sexagesimal. simpl.
  destruct (Z.eqb_spec f 0) as [->|Hf0]; simpl.
  - rewrite (parse_number_z_to_dec i Hi). reflexivity.
  - assert (Hfr : in_i64 f = true) by (unfold in_i64, i64_min, i64_max; lia).
    destruct (fmt_02_spec f ltac:(lia) Hfr) as [Hsc Hp].
    unfold parse_number.
    destruct (z_to_dec i ++ ch_semicolon :: fmt_02 f) as [|c s] eqn:Hd;
      [destruct (z_to_dec i); discriminate|rewrite <- Hd].
    replace (contains (z_to_dec i ++ ch_semicolon :: fmt_02 f) ch_semicolon) with true
      by (unfold contains; rewrite existsb_app; symmetry; apply orb_true_intro; right; reflexivity).
    unfold parse_sexagesimal.
    rewrite split_two by first [exact Hsc | apply z_to_dec_not; [reflexivity|discriminate]].
    rewrite (proj1 (parse_part_spec _) i (z_to_dec_parse i Hi)), (proj1 (parse_part_spec _) f Hp).
    cbn [obind]. replace ((f <? 0) || (60 <=? f)) with false by lia.
    rewrite (proj1 (SexagesimalNum_new_spec i f) Hf). simpl. replace (f =? 0) with false by lia. reflexivity.
Qed.

Lemma display_sexagesimal_parse_witness :
  option_map parse_number (display_value (sexagesimal (-3) 5)) = Some (Ok (sexagesimal (-3) 5)).
Proof. apply (display_sexagesimal_parse (-3) 5); reflexivity. Defined.

Lemma display_integer_parse_witness :
  option_map parse_number (display_value (Integer i64_min)) = Some (Ok (Integer i64_min)).
Proof. apply display_integer_parse. reflexivity. Defined.

(** X3. A numeral without [';'] and [','] that has two or more ['.'] fails
    with [MultipleDecimals], whatever else it contains. *)
Theorem parse_number_multiple_decimals (s : list char) :
  contains s ch_semicolon = false -> contains s ch_comma = false ->
  (2 <= count ch_dot s)%nat -> parse_number s = Err MultipleDecimals.
Proof.
  intros Hsc Hc Hd. unfold parse_number.
  destruct s as [|x s']; [cbn in Hd; lia|]. rewrite Hsc, Hc.
  unfold parse_base10. replace (1 <? count ch_dot (x :: s'))%nat with true by (symmetry; apply Nat.ltb_lt; lia).
  reflexivity.
Qed.

Lemma parse_number_multiple_decimals_witness :
  parse_number (chars "1.2.3") = Err MultipleDecimals.
Proof. apply parse_number_multiple_decimals; [reflexivity|reflexivity|vm_compute; lia]. Defined.

Lemma digits_no (d : list char) (c : char) : all_digits d -> is_ascii_digit c = false ->
  contains d c = false.
Proof.
  intros Hd Hc. apply contains_false. eapply List.Forall_impl; [|exact Hd]. intros x Hx. congruence.
Qed.

(** X4. An integer numeral (a run of digits, optionally after a ['-'])
    whose value lies outside [i64] is rejected with [InvalidFormat] of the
    numeral: it neither wraps nor falls back to a Float. *)
Theorem parse_number_integer_overflow (d : list char) (v : Z) :
  d <> [] -> all_digits d -> digits_value 0 d = Some v ->
  (in_i64 v = false -> parse_number d = Err (InvalidFormat d))
  /\ (in_i64 (- v) = false -> parse_number (ch_minus :: d) = Err (InvalidFormat (ch_minus :: d))).
Proof.
  intros Hne Hall Hv.
  destruct (parse_i64_digits d Hne Hall) as [Hp Hm]. rewrite Hv in Hp, Hm.
  assert (Hno : forall c, is_ascii_digit c = false -> c <> ch_minus -> contains (ch_minus :: d) c = false).
  { intros c Hc Hcm. apply orb_false_iff. split; [apply N.eqb_neq; congruence|].
    exact (digits_no d c Hall Hc). }
  split; intros Hr.
  - unfold parse_number. destruct d as [|x d']; [congruence|].
    rewrite (digits_no _ ch_semicolon Hall eq_refl), (digits_no _ ch_comma Hall eq_refl).
    unfold parse_base10. rewrite (count_zero _ _ (digits_no _ ch_dot Hall eq_refl)). simpl.
    rewrite Hp, Hr. reflexivity.
  - unfold parse_number.
    rewrite (Hno ch_semicolon eq_refl ltac:(discriminate)), (Hno ch_comma eq_refl ltac:(discriminate)).
    unfold parse_base10. rewrite (count_zero _ _ (Hno ch_dot eq_refl ltac:(discriminate))). simpl.
    rewrite Hm, Hr. reflexivity.
Qed.

Lemma parse_number_integer_overflow_witness :
  parse_number (chars "9223372036854775808") = Err (InvalidFormat (chars "9223372036854775808")).
Proof.
  apply (proj1 (parse_number_integer_overflow (chars "9223372036854775808") (2 ^ 63)
                  ltac:(discriminate) ltac:(repeat constructor) ltac:(reflexivity))).
  reflexivity.
Defined.

Lemma parse_base10_ok (s : list char) (v : Value) : parse_base10 s = Ok v -> parsed_value_ok v.
Proof.
  unfold parse_base10. intros H.
  destruct (1 <? count ch_dot s)%nat; [discriminate|].
  destruct (count ch_dot s =? 1)%nat.
  - destruct (parse_f64 s); [|discriminate]. injection H as <-. exact I.
  - destruct (parse_i64 s) eqn:Hi; [|discriminate]. injection H as <-.
    exact (parse_i64_in_range _ _ Hi).
Qed.

(** X5. Every value [parse_number] returns is well formed: an Integer is
    within [i64]; a Sexagesimal has an [i64] integer part, a fractional
    part in [[0, 60)] and [has_fraction] exactly when that part is
    nonzero. *)
Theorem parse_number_in_range (s : list char) (v : Value) :
  parse_number s = Ok v -> parsed_value_ok v.
Proof.
  unfold parse_number. destruct s as [|x s']; [discriminate|].
  destruct (contains (x :: s') ch_semicolon).
  - unfold parse_sexagesimal.
    destruct (split ch_semicolon (x :: s')) as [|p0 [|p1 [|p2 ps]]]; try discriminate.
    unfold parse_part.
    destruct (parse_i64 p0) as [a|] eqn:Ha; [|discriminate].
    destruct (parse_i64 p1) as [b|] eqn:Hb; [|discriminate]. cbn [obind].
    destruct ((b <? 0) || (60 <=? b)) eqn:Hr; [discriminate|].
    rewrite (proj1 (SexagesimalNum_new_spec a b) ltac:(lia)). cbn [obind].
    intros H. injection H as <-. simpl.
    split; [exact (parse_i64_in_range _ _ Ha)|]. split; [lia|reflexivity].
  - destruct (contains (x :: s') ch_comma); [|apply parse_base10_ok].
    unfold parse_sexagesimal_comma.
    destruct (split ch_comma (x :: s')) as [|p0 [|p1 [|p2 ps]]]; try discriminate;
      [apply parse_base10_ok|].
    unfold parse_part.
    destruct (parse_i64 p0); [|discriminate]. destruct (parse_i64 p1); [|discriminate].
    cbn [obind]. destruct (_ || _); [discriminate|]. intros H. injection H as <-. exact I.
Qed.

Lemma parse_number_in_range_witness : parsed_value_ok (sexagesimal 1 30).
Proof. apply (parse_number_in_range (chars "1;30")). vm_compute. reflexivity. Defined.

(** *** Tokenizer ([lexer.rs]) *)

Lemma read_char_at (l : list char) (j : nat) : read_char (lexer_at l j) = lexer_at l (S j).
Proof. reflexivity. Qed.

Lemma Lexer_new_at (l : list char) : Lexer_new l = lexer_at l 0.
Proof. reflexivity. Qed.

Lemma char_at_app_l (l1 l2 : list char) (i : nat) : (i < length l1)%nat ->
  char_at (l1 ++ l2) i = nth i l1 ch_nul.
Proof.
  intros Hi. unfold char_at. rewrite length_app.
  replace (length l1 + length l2 <=? i)%nat with false by (symmetry; apply Nat.leb_gt; lia).
  apply app_nth1. exact Hi.
Qed.

Lemma char_at_app_r (l1 l2 : list char) (i : nat) :
  char_at (l1 ++ l2) (length l1 + i) = char_at l2 i.
Proof.
  unfold char_at. rewrite length_app.
  destruct (Nat.leb_spec (length l2) i).
  - replace (length l1 + length l2 <=? length l1 + i)%nat with true by (symmetry; apply Nat.leb_le; lia).
    reflexivity.
  - replace (length l1 + length l2 <=? length l1 + i)%nat with false by (symmetry; apply Nat.leb_gt; lia).
    rewrite app_nth2 by lia. f_equal. lia.
Qed.

Lemma char_at_end (l : list char) : char_at l (length l) = ch_nul.
Proof. unfold char_at. rewrite Nat.leb_refl. reflexivity. Qed.

(** A [while P(self.ch) { self.read_char() }] loop run from index [j]
    stops at the first index whose character fails [P]. *)
Lemma loop_at (loop : nat -> Lexer -> Lexer) (P : char -> bool)
  (Hloop : forall f st, loop (S f) st = if P (ch st) then loop f (read_char st) else st)
  (l : list char) :
  forall n fuel j, (forall i, (j <= i < j + n)%nat -> P (char_at l i) = true) ->
  P (char_at l (j + n)) = false -> (n < fuel)%nat ->
  loop fuel (lexer_at l j) = lexer_at l (j + n).
Proof.
  induction n as [|n IH]; intros fuel j Hrun Hstop Hfuel;
    (destruct fuel as [|fuel]; [lia|]); rewrite Hloop; simpl.
  - rewrite Nat.add_0_r in *. rewrite Hstop. reflexivity.
  - rewrite (Hrun j) by lia. rewrite read_char_at.
    replace (j + S n)%nat with (S j + n)%nat by lia.
    apply IH; [intros i Hi; apply Hrun; lia|now replace (S j + n)%nat with (j + S n)%nat by lia|lia].
Qed.

(** The same loop over a segment [mid] between [pre] and [post]. *)
Lemma loop_segment (loop : nat -> Lexer -> Lexer) (P : char -> bool)
  (Hloop : forall f st, loop (S f) st = if P (ch st) then loop f (read_char st) else st)
  (pre mid post : list char) (fuel : nat) :
  Forall (fun c => P c = true) mid -> P (char_at post 0) = false -> (length mid < fuel)%nat ->
  loop fuel (lexer_at (pre ++ mid ++ post) (length pre))
  = lexer_at (pre ++ mid ++ post) (length pre + length mid).
Proof.
  intros Hmid Hpost Hf.
  assert (Hend : char_at (pre ++ mid ++ post) (length pre + length mid) = char_at post 0).
  { rewrite app_assoc. replace (length pre + length mid)%nat with (length (pre ++ mid) + 0)%nat
      by (rewrite length_app; lia). apply char_at_app_r. }
  apply (loop_at loop P Hloop); [|rewrite Hend; exact Hpost|exact Hf].
  intros i Hi. replace i with (length pre + (i - length pre))%nat by lia.
  rewrite char_at_app_r, char_at_app_l by lia.
  apply (proj1 (List.Forall_forall _ _) Hmid). apply nth_In. lia.
Qed.

Lemma skip_whitespace_eq (f : nat) (st : Lexer) :
  skip_whitespace (S f) st
  = if is_whitespace (ch st) && negb (N.eqb (ch st) ch_lf) then skip_whitespace f (read_char st) else st.
Proof. reflexivity. Qed.

Lemma read_integer_digits_eq (f : nat) (st : Lexer) :
  read_integer_digits (S f) st
  = if is_ascii_digit (ch st) || N.eqb (ch st) ch_minus then read_integer_digits f (read_char st) else st.
Proof. reflexivity. Qed.

Lemma read_fraction_digits_eq (f : nat) (st : Lexer) :
  read_fraction_digits (S f) st
  = if is_ascii_digit (ch st) then read_fraction_digits f (read_char st) else st.
Proof. reflexivity. Qed.

Lemma tokenize_step_appends (a : char -> bool) (st st' : Lexer) (toks toks' : list Token) :
  tokenize_step a st toks = Ok (st', toks') ->
  exists extra, toks' = toks ++ extra /\ ~ In Token.EOF extra.
Proof.
  unfold tokenize_step. intros H.
  repeat match type of H with
  | context [if ?c then _ else _] => destruct c
  | context [let '(_, _) := ?p in _] => destruct p
  end;
  injection H as _ <- || discriminate H;
  solve [exists []; rewrite app_nil_r; auto | eexists [_]; split; [reflexivity|simpl; intros [Hx|[]]; discriminate]].
Qed.

Lemma tokenize_loop_eof (a : char -> bool) (fuel : nat) : forall st toks ts,
  tokenize_loop a fuel st toks = Ok ts ->
  exists body, ts = toks ++ body ++ [Token.EOF] /\ ~ In Token.EOF body.
Proof.
  induction fuel as [|f IH]; intros st toks ts H; simpl in H.
  - injection H as <-. exists []. auto.
  - destruct (N.eqb (ch st) ch_nul); [injection H as <-; exists []; auto|].
    destruct (tokenize_step a st toks) as [[st' toks']| |] eqn:Hs; cbn [obind] in H; try discriminate.
    destruct (tokenize_step_appends _ _ _ _ _ Hs) as (extra & -> & Hx).
    destruct (IH _ _ _ H) as (body & -> & Hb). exists (extra ++ body).
    rewrite !app_assoc. split; [reflexivity|]. rewrite in_app_iff. tauto.
Qed.

(** X6. A successful tokenization ends with [EOF], and [EOF] occurs nowhere
    else in the token list. *)
Theorem lex_ends_with_eof (a : char -> bool) (l : list char) (ts : list Token) :
  lex a l = Ok ts -> exists body, ts = body ++ [Token.EOF] /\ ~ In Token.EOF body.
Proof. apply tokenize_loop_eof. Qed.

(** X7. A line whose first character is ['\0'] tokenizes to [[EOF]]: the
    loop stops at that character. A line whose first character starts no
    token and is not ['\0'] (neither whitespace, a newline, an operator, a
    parenthesis, a letter, ['_'] nor a digit; e.g. ['.'], [';'], [','] or
    ['#']) fails with [UnexpectedCharacter] of that character at
    position 0. *)
Theorem lex_unexpected_first_char (a : char -> bool) (c : char) (rest : list char) :
  lex a (ch_nul :: rest) = Ok [Token.EOF]
  /\ (~ In c [ch_nul; ch_space; ch_tab; ch_cr; ch_lf; ch_plus; ch_minus; ch_star; ch_slash;
             ch_eq; ch_lparen; ch_rparen; ch_underscore] ->
      is_alphabetic a c = false -> is_ascii_digit c = false ->
      lex a (c :: rest) = Err (UnexpectedCharacter c 0)).
Proof.
  split; [unfold lex, tokenize; rewrite Lexer_new_at; reflexivity|].
  intros Hn Ha Hd. unfold lex, tokenize. rewrite Lexer_new_at. cbn [tokenize_loop length].
  assert (E : forall x, In x [ch_nul; ch_space; ch_tab; ch_cr; ch_lf; ch_plus; ch_minus; ch_star;
                             ch_slash; ch_eq; ch_lparen; ch_rparen; ch_underscore] -> N.eqb c x = false).
  { intros x Hx. apply N.eqb_neq. intros ->. exact (Hn Hx). }
  change (ch (lexer_at (c :: rest) 0)) with c.
  rewrite (E ch_nul) by (simpl; tauto). cbn [negb].
  unfold tokenize_step. change (ch (lexer_at (c :: rest) 0)) with c.
  rewrite (E ch_space), (E ch_tab), (E ch_cr), (E ch_lf), (E ch_plus), (E ch_minus), (E ch_star),
    (E ch_slash), (E ch_eq), (E ch_lparen), (E ch_rparen), (E ch_underscore), Ha, Hd by (simpl; tauto).
  cbn. destruct (_ || _ || _); reflexivity.
Qed.

Lemma lex_unexpected_first_char_witness :
  lex (fun _ => false) (ch_semicolon :: chars "30") = Err (UnexpectedCharacter ch_semicolon 0).
Proof.
  apply (proj2 (lex_unexpected_first_char (fun _ => false) ch_semicolon (chars "30")));
    [|reflexivity|reflexivity].
  simpl. intros H. repeat (destruct H as [H|H]; [discriminate H|]). exact H.
Defined.

Lemma lex_ends_with_eof_witness :
  exists body, [Token.Identifier (chars "x"); Token.Assign; Token.Number (chars "1"); Token.EOF]
               = body ++ [Token.EOF] /\ ~ In Token.EOF body.
Proof. apply (lex_ends_with_eof (fun _ => false) (chars "x = 1")). reflexivity. Defined.

Lemma Forall_blank_char_at (l : list char) (i : nat) :
  Forall (fun c => c = ch_space \/ c = ch_tab \/ c = ch_cr) l -> (i < length l)%nat ->
  is_whitespace (char_at l i) && negb (N.eqb (char_at l i) ch_lf) = true.
Proof.
  intros Hl Hi. unfold char_at. replace (length l <=? i)%nat with false by (symmetry; apply Nat.leb_gt; lia).
  assert (Hin : In (nth i l ch_nul) l) by (apply nth_In; lia).
  destruct (proj1 (List.Forall_forall _ _) Hl _ Hin) as [-> | [-> | ->]]; reflexivity.
Qed.

Lemma tokenize_loop_eq (a : char -> bool) (f : nat) (st : Lexer) (toks : list Token) :
  tokenize_loop a (S f) st toks
  = if N.eqb (ch st) ch_nul then Ok (toks ++ [Token.EOF])
    else let? st' := tokenize_step a st toks in tokenize_loop a f (fst st') (snd st').
Proof. reflexivity. Qed.

(** X8. A line of spaces, tabs and carriage returns only, the empty line
    included, tokenizes to [[EOF]]. *)
Theorem lex_blank_line (a : char -> bool) (l : list char) :
  Forall (fun c => c = ch_space \/ c = ch_tab \/ c = ch_cr) l -> lex a l = Ok [Token.EOF].
Proof.
  intros Hl. unfold lex, tokenize. rewrite Lexer_new_at. change (input (lexer_at l 0)) with l.
  destruct l as [|c l']; [reflexivity|].
  assert (Hc : c = ch_space \/ c = ch_tab \/ c = ch_cr) by (inversion Hl; auto).
  remember (c :: l') as l eqn:Hle.
  assert (Hlen : length l = S (length l')) by (subst; reflexivity).
  rewrite tokenize_loop_eq.
  replace (ch (lexer_at l 0)) with c by (subst; reflexivity).
  replace (N.eqb c ch_nul) with false by (destruct Hc as [-> | [-> | ->]]; reflexivity).
  unfold tokenize_step. replace (ch (lexer_at l 0)) with c by (subst; reflexivity).
  replace (N.eqb c ch_space || N.eqb c ch_tab || N.eqb c ch_cr) with true
    by (destruct Hc as [-> | [-> | ->]]; reflexivity).
  cbn [obind fst snd]. change (input (lexer_at l 0)) with l.
  rewrite (loop_at skip_whitespace (fun c => is_whitespace c && negb (N.eqb c ch_lf)) skip_whitespace_eq l (length l) (S (length l)) 0).
  - rewrite Nat.add_0_l. rewrite Hlen at 1. rewrite tokenize_loop_eq. unfold lexer_at at 1. cbn [ch].
    rewrite char_at_end. reflexivity.
  - intros i Hi. apply Forall_blank_char_at; [exact Hl|lia].
  - rewrite Nat.add_0_l, char_at_end. reflexivity.
  - lia.
Qed.

Lemma lex_blank_line_witness : lex (fun _ => false) [ch_space; ch_tab; ch_cr] = Ok [Token.EOF].
Proof.
  apply lex_blank_line.
  constructor; [left; reflexivity|]. constructor; [right; left; reflexivity|].
  constructor; [right; right; reflexivity|]. constructor.
Defined.

Lemma digit_bounds (x : char) : is_ascii_digit x = true -> (48 <= x <= 57)%N.
Proof. unfold is_ascii_digit. intros H. apply andb_true_iff in H as [H1 H2]. apply N.leb_le in H1, H2. lia. Qed.

(** A digit starts a number token. *)
Lemma tokenize_step_digit (a : char -> bool) (st : Lexer) (toks : list Token) :
  is_ascii_digit (ch st) = true ->
  tokenize_step a st toks
  = let '(num, st') := read_number st in Ok (st', toks ++ [Token.Number num]).
Proof.
  intros Hd. pose proof (digit_bounds _ Hd) as Hb. unfold tokenize_step.
  assert (Ha : is_alphabetic a (ch st) = false).
  { unfold is_alphabetic. replace (ch st <? 128)%N with true by (symmetry; apply N.ltb_lt; lia).
    replace (65 <=? ch st)%N with false by (symmetry; apply N.leb_gt; lia).
    replace (97 <=? ch st)%N with false by (symmetry; apply N.leb_gt; lia). reflexivity. }
  rewrite Ha, Hd.
  unfold ch_space, ch_tab, ch_cr, ch_lf, ch_plus, ch_minus, ch_star, ch_slash, ch_eq, ch_lparen,
    ch_rparen, ch_dot, ch_semicolon, ch_comma, ch_underscore.
  repeat match goal with
  | |- context [N.eqb (ch st) ?k] => replace (N.eqb (ch st) k) with false by (symmetry; apply N.eqb_neq; lia)
  end.
  reflexivity.
Qed.

(** At the end of the input the loop stops with [EOF]. *)
Lemma tokenize_loop_at_end (a : char -> bool) (fuel : nat) (l : list char) (toks : list Token) :
  tokenize_loop a fuel (lexer_at l (length l)) toks = Ok (toks ++ [Token.EOF]).
Proof.
  destruct fuel as [|fuel]; [reflexivity|]. rewrite tokenize_loop_eq.
  change (ch (lexer_at l (length l))) with (char_at l (length l)). rewrite char_at_end. reflexivity.
Qed.

(** A ['-'] before a digit at the start of a line starts a number token. *)
Lemma tokenize_step_minus_digit (a : char -> bool) (st : Lexer) :
  ch st = ch_minus -> is_ascii_digit (peek_char st) = true ->
  tokenize_step a st []
  = let '(num, st') := read_number st in Ok (st', [Token.Number num]).
Proof. intros Hc Hp. unfold tokenize_step. rewrite Hc, Hp. reflexivity. Qed.

Lemma read_number_at (sign d1 tail : list char) :
  Forall (fun c => is_ascii_digit c || N.eqb c ch_minus = true) (sign ++ d1) ->
  (tail = [] \/ exists sep d2, In sep [ch_dot; ch_semicolon; ch_comma] /\ all_digits d2 /\ tail = sep :: d2) ->
  read_number (lexer_at (sign ++ d1 ++ tail) 0)
  = (sign ++ d1 ++ tail, lexer_at (sign ++ d1 ++ tail) (length (sign ++ d1 ++ tail))).
Proof.
  intros Hint Htail. set (L := sign ++ d1 ++ tail).
  assert (HL : L = [] ++ (sign ++ d1) ++ tail) by (subst L; rewrite app_assoc; reflexivity).
  unfold read_number. change (position (lexer_at L 0)) with 0%nat. change (input (lexer_at L 0)) with L.
  assert (Hstop : (is_ascii_digit (char_at tail 0) || N.eqb (char_at tail 0) ch_minus) = false).
  { destruct Htail as [-> | (sep & d2 & Hs & _ & ->)]; [reflexivity|].
    simpl in Hs. destruct Hs as [<- | [<- | [<- | []]]]; reflexivity. }
  assert (H1 : read_integer_digits (S (length L)) (lexer_at L 0) = lexer_at L (length (sign ++ d1))).
  { rewrite HL. change 0%nat with (length (@nil char)).
    rewrite (loop_segment read_integer_digits (fun c => is_ascii_digit c || N.eqb c ch_minus)
               read_integer_digits_eq [] (sign ++ d1) tail); [reflexivity|exact Hint|exact Hstop|].
    rewrite !length_app. lia. }
  rewrite H1. change (ch (lexer_at L (length (sign ++ d1)))) with (char_at L (length (sign ++ d1))).
  assert (Hk : char_at L (length (sign ++ d1)) = char_at tail 0).
  { rewrite HL, app_nil_l. rewrite <- (Nat.add_0_r (length (sign ++ d1))). apply char_at_app_r. }
  rewrite Hk.
  destruct Htail as [Ht | (sep & d2 & Hs & Hd2 & Ht)].
  - subst tail.
    replace (N.eqb (char_at [] 0) ch_dot || N.eqb (char_at [] 0) ch_semicolon
             || N.eqb (char_at [] 0) ch_comma) with false by reflexivity.
    change (input (lexer_at L (length (sign ++ d1)))) with L.
    change (position (lexer_at L (length (sign ++ d1)))) with (length (sign ++ d1)).
    assert (Hl : length (sign ++ d1) = length L) by (subst L; rewrite app_nil_r; reflexivity).
    rewrite Hl. unfold slice. rewrite Nat.sub_0_r, skipn_O, firstn_all. reflexivity.
  - subst tail.
    replace (N.eqb (char_at (sep :: d2) 0) ch_dot || N.eqb (char_at (sep :: d2) 0) ch_semicolon
             || N.eqb (char_at (sep :: d2) 0) ch_comma) with true
      by (simpl in Hs; destruct Hs as [<- | [<- | [<- | []]]]; reflexivity).
    rewrite read_char_at.
    assert (HL2 : L = (sign ++ d1 ++ [sep]) ++ d2 ++ []) by (subst L; rewrite !app_nil_r, <- !app_assoc; reflexivity).
    assert (Hpre : S (length (sign ++ d1)) = length (sign ++ d1 ++ [sep]))
      by (rewrite !length_app; simpl; lia).
    rewrite Hpre.
    assert (H2 : read_fraction_digits (S (length L)) (lexer_at L (length (sign ++ d1 ++ [sep])))
                 = lexer_at L (length L)).
    { assert (Hl : (length (sign ++ d1 ++ [sep]) + length d2)%nat = length L)
        by (rewrite HL2, !length_app; simpl; lia).
      rewrite <- Hl. rewrite HL2.
      apply (loop_segment read_fraction_digits is_ascii_digit read_fraction_digits_eq
               (sign ++ d1 ++ [sep]) d2 []); [exact Hd2|reflexivity|rewrite !length_app; simpl; lia]. }
    rewrite H2. change (input (lexer_at L (length L))) with L.
    change (position (lexer_at L (length L))) with (length L).
    unfold slice. rewrite Nat.sub_0_r, skipn_O, firstn_all. reflexivity.
Qed.

(** X9. A line that is one number literal (digits, optionally preceded by
    ['-'] and optionally followed by one of ['.'], [';'], [','] and more
    digits) tokenizes to a single [Number] token holding the whole line,
    then [EOF]. *)
Theorem lex_number_literal (a : char -> bool) (sign d1 tail : list char) :
  (sign = [] \/ sign = [ch_minus]) -> d1 <> [] -> all_digits d1 ->
  (tail = [] \/ exists sep d2, In sep [ch_dot; ch_semicolon; ch_comma] /\ all_digits d2 /\ tail = sep :: d2) ->
  lex a (sign ++ d1 ++ tail) = Ok [Token.Number (sign ++ d1 ++ tail); Token.EOF].
Proof.
  intros Hsign Hne Hd1 Htail. set (L := sign ++ d1 ++ tail).
  assert (Hint : Forall (fun c => is_ascii_digit c || N.eqb c ch_minus = true) (sign ++ d1)).
  { apply Forall_app. split.
    - destruct Hsign as [-> | ->]; repeat constructor.
    - eapply List.Forall_impl; [|exact Hd1]. intros x Hx. rewrite Hx. reflexivity. }
  destruct d1 as [|x d1']; [congruence|].
  assert (Hx : is_ascii_digit x = true) by (inversion Hd1; assumption).
  unfold lex, tokenize. rewrite Lexer_new_at. change (input (lexer_at L 0)) with L.
  assert (Hlen : length L = S (length L - 1)) by (subst L; rewrite !length_app; simpl; lia).
  rewrite Hlen at 1. rewrite tokenize_loop_eq.
  assert (Hstep : tokenize_step a (lexer_at L 0) [] = Ok (lexer_at L (length L), [Token.Number L])).
  { destruct Hsign as [-> | ->].
    - rewrite tokenize_step_digit by exact Hx. subst L. rewrite read_number_at by auto. reflexivity.
    - rewrite tokenize_step_minus_digit by (exact eq_refl || exact Hx).
      subst L. rewrite read_number_at by auto. reflexivity. }
  replace (N.eqb (ch (lexer_at L 0)) ch_nul) with false.
  2:{ destruct Hsign as [-> | ->]; [|reflexivity].
      symmetry. apply N.eqb_neq. change (ch (lexer_at L 0)) with x.
      pose proof (digit_bounds x Hx). unfold ch_nul. lia. }
  rewrite Hstep. cbn [obind fst snd].
  apply tokenize_loop_at_end.
Qed.

Lemma lex_number_literal_witness :
  lex (fun _ => false) ([ch_minus] ++ chars "12" ++ ch_semicolon :: chars "30")
  = Ok [Token.Number ([ch_minus] ++ chars "12" ++ ch_semicolon :: chars "30"); Token.EOF].
Proof.
  apply lex_number_literal; [right; reflexivity|discriminate|repeat constructor|].
  right. exists ch_semicolon, (chars "30"). split; [simpl; auto|split; [repeat constructor|reflexivity]].
Defined.

(** *** Evaluator ([interpreter.rs]) *)

(** X10. In a fresh environment every identifier is undefined
    ([UndefinedVariable]). An assignment whose right-hand side evaluates to
    [v] returns [v] and binds the variable to it: reading the variable then
    gives [v], and reading any other identifier gives what it gave
    before. *)
Theorem assignment_then_lookup (oc : bool) (env : Environment) (x : list char) (e : Expression) (v : Value) :
  eval_expression oc Environment_new (Ast.Identifier x) = Err (UndefinedVariable x)
  /\ (eval_expression oc env e = Ok v ->
      eval_statement oc env (Ast.StmtAssignment {| Ast.variable := x; Ast.value := e |})
        = (Environment_set x v env, Ok v)
      /\ eval_expression oc (Environment_set x v env) (Ast.Identifier x) = Ok v
      /\ forall y, y <> x ->
         eval_expression oc (Environment_set x v env) (Ast.Identifier y)
         = eval_expression oc env (Ast.Identifier y)).
Proof.
  split; [reflexivity|]. intros He. simpl. rewrite He. split; [reflexivity|].
  unfold Environment_get, Environment_set. rewrite lookup_insert_eq. split; [reflexivity|].
  intros y Hy. rewrite lookup_insert_ne by congruence. reflexivity.
Qed.

Lemma assignment_then_lookup_witness :
  eval_statement true Environment_new
    (Ast.StmtAssignment {| Ast.variable := var "x"; Ast.value := Ast.Number (chars "1;30") |})
  = (Environment_set (var "x") (sexagesimal 1 30) Environment_new, Ok (sexagesimal 1 30)).
Proof.
  apply (proj2 (assignment_then_lookup true Environment_new (var "x") (Ast.Number (chars "1;30"))
                  (sexagesimal 1 30))).
  vm_compute. reflexivity.
Defined.

Lemma eval_statement_frame (oc : bool) (env : Environment) (s : Statement) (y : list char) :
  ~ In y (assigned [s]) ->
  (fst (eval_statement oc env s)) !! y = env !! y.
Proof.
  destruct s as [e|a]; simpl; [reflexivity|]. intros Hy.
  destruct (eval_expression oc env (Ast.value a)); simpl; try reflexivity.
  unfold Environment_set. rewrite lookup_insert_ne; [reflexivity|]. intros Heq. apply Hy. auto.
Qed.

(** X11. Running a program leaves the binding of every variable that none
    of its assignments names as it was, whatever the program's outcome. *)
Theorem eval_program_frame (oc : bool) (prog : Program) (env : Environment) (y : list char) :
  ~ In y (assigned (Ast.statements prog)) ->
  (fst (eval_program oc prog env)) !! y = env !! y.
Proof.
  unfold eval_program. generalize (@None Value) as r. revert env.
  induction (Ast.statements prog) as [|s rest IH]; intros env r Hy; simpl; [reflexivity|].
  assert (Hs : ~ In y (assigned [s])) by (intros H; apply Hy; simpl in *; rewrite app_nil_r in H; apply in_or_app; auto).
  assert (Hr : ~ In y (assigned rest)) by (intros H; apply Hy; simpl; apply in_or_app; auto).
  pose proof (eval_statement_frame oc env s y Hs) as Hf.
  destruct (eval_statement oc env s) as [env' [v|e|]]; simpl in *; try exact Hf.
  rewrite IH by exact Hr. exact Hf.
Qed.

Lemma eval_program_frame_witness :
  (fst (eval_program true
          {| Ast.statements :=
               [Ast.StmtAssignment {| Ast.variable := var "x"; Ast.value := Ast.Number (chars "1") |}] |}
          (Environment_set (var "y") (Integer 2) Environment_new))) !! var "y" = Some (Integer 2).
Proof.
  rewrite eval_program_frame; [reflexivity|].
  simpl. intros [H|[]]. discriminate H.
Defined.

(** X12. An expression's result depends only on the bindings of the
    identifiers it mentions: two environments that agree on them give the
    same result. *)
Theorem eval_expression_frame (oc : bool) (env1 env2 : Environment) (e : Expression) :
  (forall y, In y (identifiers e) -> env1 !! y = env2 !! y) ->
  eval_expression oc env1 e = eval_expression oc env2 e.
Proof.
  induction e as [n|id|op l IHl r IHr|op e IH|e IH]; simpl; intros H.
  - reflexivity.
  - unfold Environment_get. rewrite (H id) by auto. reflexivity.
  - rewrite IHl, IHr by (intros; apply H, in_or_app; auto). reflexivity.
  - rewrite IH by exact H. reflexivity.
  - apply IH, H.
Qed.

Lemma eval_expression_frame_witness :
  eval_expression true (Environment_set (var "y") (Integer 5) (Environment_set (var "x") (Integer 1) Environment_new))
    (Ast.Binary Ast.Plus (Ast.Identifier (var "x")) (Ast.Number (chars "2")))
  = eval_expression true (Environment_set (var "x") (Integer 1) Environment_new)
    (Ast.Binary Ast.Plus (Ast.Identifier (var "x")) (Ast.Number (chars "2"))).
Proof.
  apply eval_expression_frame. simpl. intros y [<-|[]]. reflexivity.
Defined.

(** X13. With overflow checks off ([--release]), the only binary operation
    that panics is the Integer division [i64::MIN / -1]. *)
Theorem binary_operation_panics_release (op : Operator) (l r : Value) :
  eval_binary_operation false op l r = Panic ->
  op = Ast.Divide /\ l = Integer i64_min /\ r = Integer (-1).
Proof.
  intros Hop.
  destruct op; simpl in Hop;
    unfold add_values, subtract_values, multiply_values, divide_values in Hop;
    [| | |destruct (is_zero_divisor r) eqn:Hz; [congruence|]];
    destruct l as [a|a|a], r as [b|b|b]; cbn [obind] in Hop; try discriminate;
    unfold i64_arith in Hop;
    try (destruct (in_i64 _); discriminate).
  unfold i64_rem in Hop.
  unfold i64_rem in Hop.
  destruct (Z.eqb_spec b 0) as [Hb0|Hb]; [subst b; discriminate|].
  destruct (Z.eqb_spec a i64_min) as [Ha|Ha]; [|simpl in Hop;
    destruct (Z.rem a b =? 0); simpl in Hop; try discriminate;
    unfold i64_div in Hop; rewrite (proj2 (Z.eqb_neq b 0) Hb), (proj2 (Z.eqb_neq a i64_min) Ha) in Hop;
    discriminate].
  destruct (Z.eqb_spec b (-1)) as [Hb1|Hb1]; [subst; auto|].
  rewrite andb_false_r in Hop. simpl in Hop.
  destruct (Z.rem a b =? 0); simpl in Hop; try discriminate.
  unfold i64_div in Hop. rewrite (proj2 (Z.eqb_neq b 0) Hb), (proj2 (Z.eqb_neq b (-1)) Hb1), andb_false_r in Hop.
  discriminate.
Qed.

Lemma binary_operation_panics_release_witness :
  Ast.Divide = Ast.Divide /\ Integer i64_min = Integer i64_min /\ Integer (-1) = Integer (-1).
Proof. apply binary_operation_panics_release. reflexivity. Defined.

(** X14. On two Integers, [+], [-] and [*] give the exact result when it
    fits in [i64]; otherwise they panic with overflow checks on, and give
    the two's complement wrapped result with them off. The wrapped result is
    always in [i64] and equals the exact one when that fits. *)
Theorem integer_arith_results (op : Operator) (a b z : Z) :
  op <> Ast.Divide ->
  z = match op with Ast.Plus => a + b | Ast.Minus => a - b | _ => a * b end ->
  eval_binary_operation true op (Integer a) (Integer b) = (if in_i64 z then Ok (Integer z) else Panic)
  /\ eval_binary_operation false op (Integer a) (Integer b) = Ok (Integer (wrap64 z))
  /\ in_i64 (wrap64 z) = true
  /\ (in_i64 z = true -> wrap64 z = z).
Proof.
  intros Hop Hz.
  assert (Hw : in_i64 (wrap64 z) = true).
  { unfold in_i64, wrap64, i64_min, i64_max.
    pose proof (Z.mod_pos_bound (z + 2 ^ 63) (2 ^ 64) ltac:(lia)). lia. }
  assert (Hid : in_i64 z = true -> wrap64 z = z).
  { unfold in_i64, wrap64, i64_min, i64_max. intros Hr.
    rewrite Z.mod_small by lia. lia. }
  assert (Hr : forall (o : bool), (let? c := @i64_arith RuntimeError o z in @Ok Value RuntimeError (Integer c))
                = if in_i64 z then Ok (Integer z) else if o then Panic else Ok (Integer (wrap64 z))).
  { intros o. unfold i64_arith. destruct (in_i64 z) eqn:E; [reflexivity|]. destruct o; reflexivity. }
  assert (Hf : (if in_i64 z then @Ok Value RuntimeError (Integer z)
                else if false then Panic else Ok (Integer (wrap64 z))) = Ok (Integer (wrap64 z)))
    by (destruct (in_i64 z); [rewrite Hid by reflexivity|]; reflexivity).
  destruct op; [..|congruence]; simpl in Hz |- *; rewrite <- Hz, !Hr;
    (split; [destruct (in_i64 z); reflexivity|]); auto.
Qed.

Lemma integer_arith_results_witness :
  eval_binary_operation false Ast.Plus (Integer i64_max) (Integer 1) = Ok (Integer (wrap64 (i64_max + 1))).
Proof.
  apply (proj1 (proj2 (integer_arith_results Ast.Plus i64_max 1 (i64_max + 1)
                         ltac:(discriminate) eq_refl))).
Defined.

(** X15. When either operand is a Float, every binary operation gives a
    Float, except a division by a zero divisor, which fails with
    [DivisionByZero]. *)
Theorem float_operand_float_result (oc : bool) (op : Operator) (l r : Value) :
  (exists f, l = Float f) \/ (exists f, r = Float f) ->
  (op = Ast.Divide /\ is_zero_divisor r = true
   /\ eval_binary_operation oc op l r = Err DivisionByZero)
  \/ exists f, eval_binary_operation oc op l r = Ok (Float f).
Proof.
  intros Hf.
  destruct op; simpl; unfold add_values, subtract_values, multiply_values, divide_values;
    [| | |destruct (is_zero_divisor r) eqn:Hz; [left; auto|]];
    right; destruct Hf as [[f ->]|[f ->]]; destruct l || destruct r; eexists; reflexivity.
Qed.

Lemma float_operand_float_result_witness :
  (Ast.Divide = Ast.Divide /\ is_zero_divisor (Float f64_zero) = true
   /\ eval_binary_operation true Ast.Divide (Integer 1) (Float f64_zero) = Err DivisionByZero)
  \/ exists f, eval_binary_operation true Ast.Divide (Integer 1) (Float f64_zero) = Ok (Float f).
Proof. apply float_operand_float_result. right. exists f64_zero. reflexivity. Defined.

(** X16. Unary minus on an Integer [n] other than [i64::MIN] gives [-n], and
    negating twice gives [n] back; [-i64::MIN] panics with overflow checks
    on and stays [i64::MIN] with them off. Negating a Float twice gives the
    same Float. *)
Theorem negate_results (oc : bool) (n : Z) (f : f64) :
  in_i64 n = true ->
  (n <> i64_min -> negate_value oc (Integer n) = Ok (Integer (- n))
                  /\ obind (negate_value oc (Integer n)) (negate_value oc) = Ok (Integer n))
  /\ negate_value true (Integer i64_min) = Panic
  /\ negate_value false (Integer i64_min) = Ok (Integer i64_min)
  /\ obind (negate_value oc (Float f)) (negate_value oc) = Ok (Float f).
Proof.
  intros Hn. split; [|split; [reflexivity|split; [reflexivity|]]].
  - intros Hmin. unfold in_i64, i64_min, i64_max in *.
    assert (H1 : in_i64 (- n) = true) by (unfold in_i64, i64_min, i64_max; lia).
    assert (H2 : in_i64 (- - n) = true) by (unfold in_i64, i64_min, i64_max; lia).
    unfold negate_value, i64_arith. rewrite H1. simpl. rewrite H2, Z.opp_involutive. auto.
  - simpl. destruct f as [s|s| |s m e]; reflexivity || (simpl; rewrite negb_involutive; reflexivity).
Qed.

Lemma negate_results_witness :
  negate_value true (Integer 5) = Ok (Integer (-5))
  /\ obind (negate_value true (Integer 5)) (negate_value true) = Ok (Integer 5).
Proof. apply (negate_results true 5 f64_zero); [reflexivity|unfold i64_min; lia]. Defined.

Lemma integer_division_in_range_witness :
  divide_values (Integer 7) (Integer (-2)) = Ok (Float (f64_div (f64_of_Z 7) (f64_of_Z (-2)))).
Proof. rewrite integer_division_in_range by (discriminate || (unfold i64_min; lia)). reflexivity. Defined.
